(** * The messenger world runner

    A shallow embedding of [MessengerWorldRunner]
    (parlai/chat_service/services/messenger/world_runner.py).

    The runner owns a registry of launched tasks, a bounded thread pool and a
    shared stop flag.  Pool workers run two kinds of loops: the task-world
    loop [_run_world] and the overworld loop [_world_function].  The loops
    run concurrently with one another and with the thread that calls
    [shutdown], so the program is modelled as a transition system: every
    thread has a program point, one [action] lets one thread execute the
    statements between two program points, and a schedule is a list of
    actions.  Objects that Python shares by reference (task states, worlds)
    live in heaps indexed by their reference. *)

From stdpp Require Import base option list gmap strings pretty.

(** ** Python values and exceptions *)

(** The values the runner inspects: routes and step results are either
    [None] or a string. *)
Inductive pyval :=
| PyNone
| PyStr (s : string).

#[global] Instance pyval_eq_dec : EqDecision pyval.
Proof. solve_decision. Defined.

(** Python truthiness, as used by [if onboard_type:]. *)
Definition truthy (v : pyval) : bool :=
  match v with
  | PyNone => false
  | PyStr EmptyString => false
  | PyStr (String _ _) => true
  end.

(** [v is None] *)
Definition is_none (v : pyval) : bool :=
  match v with
  | PyNone => true
  | PyStr _ => false
  end.

(** A [data] attribute of a world: a dictionary. *)
Abbreviation payload := (gmap string pyval).

Inductive exn :=
| AttributeError (what : string)
| UnboundLocalError (var : string)
| RuntimeError (msg : string)
| WorldError (msg : string).

#[global] Instance exn_eq_dec : EqDecision exn.
Proof. solve_decision. Defined.

Inductive result (A : Type) :=
| Ok (a : A)
| Raise (e : exn).

Arguments Ok {A} a.
Arguments Raise {A} e.

(** ** Collaborators *)

Record Agent := mkAgent { agent_id : string }.

#[global] Instance Agent_eq_dec : EqDecision Agent.
Proof. solve_decision. Defined.

(** The session object.  Every operation may change the session and may
    raise; [world_data] is [None] when the object has no [data] attribute.
    [return_overworld] is only called on overworlds. *)
Class World (W : Type) := {
  parley : W → result pyval * W;
  episode_done : W → bool;
  world_shutdown : W → result unit * W;
  world_data : W → option payload;
  return_overworld : W → result unit * W;
}.

(** Modelled from the spec: the agent-state record of the manager
    (shared_utils / the manager module are not part of the sources).  It
    exposes the active agent, the task assignments and a mutable
    onboarding-data field. *)
Record AgentState := mkAgentState {
  active_agent : Agent;
  task_id_to_agent : list (string * Agent);
  onboard_data : option payload;
}.

Definition set_active_agent (a : Agent) (s : AgentState) : AgentState :=
  {| active_agent := a;
     task_id_to_agent := task_id_to_agent s;
     onboard_data := onboard_data s |}.

Definition assign_agent_to_task (a : Agent) (task_id : string)
    (s : AgentState) : AgentState :=
  {| active_agent := active_agent s;
     task_id_to_agent := task_id_to_agent s ++ [(task_id, a)];
     onboard_data := onboard_data s |}.

Definition set_onboard_data (d : payload) (s : AgentState) : AgentState :=
  {| active_agent := active_agent s;
     task_id_to_agent := task_id_to_agent s;
     onboard_data := Some d |}.

(** Modelled from the spec: the manager collaborator, reduced to what the
    runner touches: the agent states by agent id and the pool that
    [add_agent_to_pool] feeds. *)
Record Manager := mkManager {
  agent_states : gmap string AgentState;
  agent_pool : list (option string * pyval);
}.

(** Modelled from the spec: the task registry entry [TaskState] of
    shared_utils.  The session instance and the handle are null at
    creation. *)
Record TaskState := mkTaskState {
  task_name : string;
  world_name : string;
  agents : list Agent;
  is_overworld : bool;
  world_type : pyval;
  future : option nat;
  world : option nat;
}.

Definition new_TaskState (name wname : string) (ags : list Agent)
    (over : bool) (wt : pyval) : TaskState :=
  {| task_name := name; world_name := wname; agents := ags;
     is_overworld := over; world_type := wt;
     future := None; world := None |}.

Definition set_world (w : option nat) (t : TaskState) : TaskState :=
  {| task_name := task_name t; world_name := world_name t;
     agents := agents t; is_overworld := is_overworld t;
     world_type := world_type t; future := future t; world := w |}.

Definition set_future (f : option nat) (t : TaskState) : TaskState :=
  {| task_name := task_name t; world_name := world_name t;
     agents := agents t; is_overworld := is_overworld t;
     world_type := world_type t; future := f; world := world t |}.

(** ** Program points *)

(** [_run_world], lines 65-77. *)
Inductive run_pc :=
| RStart
| RCheck (w : nat) (ret_val : pyval)
| RParley (w : nat) (ret_val : pyval)
| RSleep (w : nat) (ret_val : pyval)
| RExit (w : nat) (ret_val : pyval)
| RDone (ret_val : pyval) (world_data : payload)
| RRaise (e : exn).

(** [_world_fn], lines 97-99. *)
Inductive task_pc :=
| TQueued
| TRun (rp : run_pc).

(** [_world_function], lines 133-161.  [ow] is the overworld object; the
    local [world_type] is unbound ([None] of the option) until the first
    step returned. *)
Inductive over_pc :=
| OQueued
| OStart
| OHead (ow : nat) (wt : option pyval)
| OParley (ow : nat)
| ORetry (ow : nat)
| ORoute (ow : nat) (wt : pyval)
| OOnboard (ow : nat) (wt : pyval) (onboard_type : string) (agent : Agent)
    (rp : run_pc)
| ONotify (ow : nat) (wt : pyval)
| OSettle (ow : nat) (wt : pyval)
| OWait (ow : nat) (wt : pyval)
| OWaitSleep (ow : nat) (wt : pyval)
| OReturn (ow : nat) (wt : pyval)
| ODone (wt : pyval)
| ORaise (e : exn).

(** A closure submitted to the executor, with the variables it captured
    and the program point its worker has reached.  The index of a job in
    the executor's list is its future. *)
Inductive job :=
| TaskJob (task : nat) (name wname : string) (ags : list Agent)
    (pc : task_pc)
| OverJob (task : nat) (overworld_name : string)
    (onboard_map : gmap string pyval) (overworld_agent : Agent)
    (agent_state : option string) (pc : over_pc).

(** [shutdown], lines 40-49.  [CRelease i n] is the [for] loop over
    [self.tasks.items()] about to visit position [i] of a dictionary that
    had [n] entries when the loop began. *)
Inductive caller_pc :=
| CIdle
| CRelease (i n : nat)
| CSetDone
| CExecShutdown
| CJoin.

Inductive thread :=
| Caller
| Worker (j : nat).

#[global] Instance thread_eq_dec : EqDecision thread.
Proof. solve_decision. Defined.

Inductive event :=
| EvDebug (text : string)
| EvLog (text : string)
| EvGenerate (w : nat) (wname : string) (ags : list Agent)
| EvParley (w : nat) (r : result pyval)
| EvRelease (w : nat)
| EvReturnOverworld (w : nat)
| EvSleep (ms : nat)
| EvCreateAgent (new_id owner_id : string)
| EvSetActiveAgent (st : option string) (a : Agent)
| EvAssignAgent (st : option string) (a : Agent) (task_id : string)
| EvAddToPool (st : option string) (route : pyval)
| EvSetSystemDone
| EvExecutorShutdown
| EvSubmit (fut : nat)
| EvRaised (e : exn)
| EvReturned.

(** ** The runner

    [tasks] is the dictionary [self.tasks], kept in insertion order; it
    maps a task name to a reference into [task_heap].  [worlds] is the heap
    of session objects, [jobs] the closures submitted to [self.executor]
    (a job's index is its future), [executor_down] the executor's own
    shutdown mark, [now] the clock read by [time.time()] and [trace] the
    calls made so far, oldest first. *)
Record Runner (Opt W : Type) := mkRunner {
  opt : Opt;
  debug : bool;
  max_workers : nat;
  system_done : bool;
  tasks : list (string * nat);
  task_heap : list TaskState;
  worlds : list W;
  jobs : list job;
  executor_down : bool;
  manager : Manager;
  now : nat;
  trace : list (thread * event);
  caller : caller_pc;
}.

Arguments opt {Opt W} _.
Arguments debug {Opt W} _.
Arguments max_workers {Opt W} _.
Arguments system_done {Opt W} _.
Arguments tasks {Opt W} _.
Arguments task_heap {Opt W} _.
Arguments worlds {Opt W} _.
Arguments jobs {Opt W} _.
Arguments executor_down {Opt W} _.
Arguments manager {Opt W} _.
Arguments now {Opt W} _.
Arguments trace {Opt W} _.
Arguments caller {Opt W} _.
Arguments mkRunner {Opt W}.

Section Setters.
Context {Opt W : Type}.
Implicit Types st : Runner Opt W.

Definition set_system_done (x : bool) st : Runner Opt W :=
  {| opt := opt st;
     debug := debug st;
     max_workers := max_workers st;
     system_done := x;
     tasks := tasks st;
     task_heap := task_heap st;
     worlds := worlds st;
     jobs := jobs st;
     executor_down := executor_down st;
     manager := manager st;
     now := now st;
     trace := trace st;
     caller := caller st |}.

Definition set_tasks (x : list (string * nat)) st : Runner Opt W :=
  {| opt := opt st;
     debug := debug st;
     max_workers := max_workers st;
     system_done := system_done st;
     tasks := x;
     task_heap := task_heap st;
     worlds := worlds st;
     jobs := jobs st;
     executor_down := executor_down st;
     manager := manager st;
     now := now st;
     trace := trace st;
     caller := caller st |}.

Definition set_task_heap (x : list TaskState) st : Runner Opt W :=
  {| opt := opt st;
     debug := debug st;
     max_workers := max_workers st;
     system_done := system_done st;
     tasks := tasks st;
     task_heap := x;
     worlds := worlds st;
     jobs := jobs st;
     executor_down := executor_down st;
     manager := manager st;
     now := now st;
     trace := trace st;
     caller := caller st |}.

Definition set_worlds (x : list W) st : Runner Opt W :=
  {| opt := opt st;
     debug := debug st;
     max_workers := max_workers st;
     system_done := system_done st;
     tasks := tasks st;
     task_heap := task_heap st;
     worlds := x;
     jobs := jobs st;
     executor_down := executor_down st;
     manager := manager st;
     now := now st;
     trace := trace st;
     caller := caller st |}.

Definition set_jobs (x : list job) st : Runner Opt W :=
  {| opt := opt st;
     debug := debug st;
     max_workers := max_workers st;
     system_done := system_done st;
     tasks := tasks st;
     task_heap := task_heap st;
     worlds := worlds st;
     jobs := x;
     executor_down := executor_down st;
     manager := manager st;
     now := now st;
     trace := trace st;
     caller := caller st |}.

Definition set_executor_down (x : bool) st : Runner Opt W :=
  {| opt := opt st;
     debug := debug st;
     max_workers := max_workers st;
     system_done := system_done st;
     tasks := tasks st;
     task_heap := task_heap st;
     worlds := worlds st;
     jobs := jobs st;
     executor_down := x;
     manager := manager st;
     now := now st;
     trace := trace st;
     caller := caller st |}.

Definition set_manager (x : Manager) st : Runner Opt W :=
  {| opt := opt st;
     debug := debug st;
     max_workers := max_workers st;
     system_done := system_done st;
     tasks := tasks st;
     task_heap := task_heap st;
     worlds := worlds st;
     jobs := jobs st;
     executor_down := executor_down st;
     manager := x;
     now := now st;
     trace := trace st;
     caller := caller st |}.

Definition set_now (x : nat) st : Runner Opt W :=
  {| opt := opt st;
     debug := debug st;
     max_workers := max_workers st;
     system_done := system_done st;
     tasks := tasks st;
     task_heap := task_heap st;
     worlds := worlds st;
     jobs := jobs st;
     executor_down := executor_down st;
     manager := manager st;
     now := x;
     trace := trace st;
     caller := caller st |}.

Definition set_trace (x : list (thread * event)) st : Runner Opt W :=
  {| opt := opt st;
     debug := debug st;
     max_workers := max_workers st;
     system_done := system_done st;
     tasks := tasks st;
     task_heap := task_heap st;
     worlds := worlds st;
     jobs := jobs st;
     executor_down := executor_down st;
     manager := manager st;
     now := now st;
     trace := x;
     caller := caller st |}.

Definition set_caller (x : caller_pc) st : Runner Opt W :=
  {| opt := opt st;
     debug := debug st;
     max_workers := max_workers st;
     system_done := system_done st;
     tasks := tasks st;
     task_heap := task_heap st;
     worlds := worlds st;
     jobs := jobs st;
     executor_down := executor_down st;
     manager := manager st;
     now := now st;
     trace := trace st;
     caller := x |}.

End Setters.

(** ** Helpers: trace, dictionary, heaps *)

Section Semantics.
Context {Opt W : Type} `{!World W}.
Implicit Types st : Runner Opt W.

(** Modelled from the spec: what the runner imports from shared_utils and
    the manager, none of which is part of the sources: the module loader
    [utils.get_world_fn_attr(module, name, "generate_world")], which
    returns the session-construction function of a world kind and fails on
    an unknown kind; the manager's [_create_agent(new_id, owner_id)]; and
    the item assignment [opt["is_debug"] = is_debug] on the option
    dictionary. *)
Class Services := {
  get_world_fn_attr : string → option (Opt → list Agent → result W);
  _create_agent : string → string → result Agent;
  opt_set_is_debug : bool → Opt → Opt;
}.

Context `{!Services}.

Definition emit (th : thread) (e : event) st : Runner Opt W :=
  set_trace (trace st ++ [(th, e)]) st.

(** [self._log(text)], lines 35-38 *)
Definition _log (th : thread) (text : string) st : Runner Opt W :=
  if debug st then emit th (EvDebug text) st else st.

(** [d[k] = v] on an insertion-ordered dictionary: an existing key keeps
    its position. *)
Fixpoint dict_set (k : string) (v : nat) (d : list (string * nat))
    : list (string * nat) :=
  match d with
  | [] => [(k, v)]
  | (k', v') :: d' =>
      if decide (k' = k) then (k, v) :: d' else (k', v') :: dict_set k v d'
  end.

Fixpoint dict_get (k : string) (d : list (string * nat)) : option nat :=
  match d with
  | [] => None
  | (k', v') :: d' => if decide (k' = k) then Some v' else dict_get k d'
  end.

(** A method call on the world object behind reference [w]. *)
Definition call_world {A} (w : nat) (m : W → result A * W) st
    : result A * Runner Opt W :=
  match worlds st !! w with
  | None => (Raise (RuntimeError "dangling world reference"), st)
  | Some obj =>
      let '(r, obj') := m obj in
      (r, set_worlds (<[w := obj']> (worlds st)) st)
  end.

(** A method call on the agent-state object captured by an overworld
    closure; [None] is Python's [None], returned by [get_agent_state] for
    an unknown agent. *)
Definition call_agent_state (k : option string)
    (m : AgentState → AgentState) st : result unit * Runner Opt W :=
  match k with
  | None => (Raise (AttributeError "NoneType"), st)
  | Some a =>
      match agent_states (manager st) !! a with
      | None => (Raise (AttributeError "NoneType"), st)
      | Some s =>
          (Ok (),
           set_manager
             {| agent_states := <[a := m s]> (agent_states (manager st));
                agent_pool := agent_pool (manager st) |} st)
      end
  end.

Definition get_active_agent (k : option string) st : result Agent :=
  match k with
  | None => Raise (AttributeError "NoneType")
  | Some a =>
      match agent_states (manager st) !! a with
      | None => Raise (AttributeError "NoneType")
      | Some s => Ok (active_agent s)
      end
  end.

(** [self.manager.add_agent_to_pool(agent_state, world_type)] *)
Definition add_agent_to_pool (k : option string) (route : pyval) st
    : Runner Opt W :=
  set_manager
    {| agent_states := agent_states (manager st);
       agent_pool := agent_pool (manager st) ++ [(k, route)] |} st.

(** ** [_run_world], one program point at a time *)

Definition _run_world (j task : nat) (wname : string) (ags : list Agent)
    (pc : run_pc) st : run_pc * Runner Opt W :=
  match pc with
  | RStart =>
      (* lines 65-70 *)
      match get_world_fn_attr wname with
      | None => (RRaise (AttributeError wname), st)
      | Some world_generator =>
          match world_generator (opt st) ags with
          | Raise e => (RRaise e, st)
          | Ok obj =>
              let w := length (worlds st) in
              let st := set_worlds (worlds st ++ [obj]) st in
              let st := emit (Worker j) (EvGenerate w wname ags) st in
              let st :=
                set_task_heap (alter (set_world (Some w)) task (task_heap st))
                  st in
              (RCheck w PyNone, st)
          end
      end
  | RCheck w ret_val =>
      (* line 72 *)
      match worlds st !! w with
      | None => (RRaise (RuntimeError "dangling world reference"), st)
      | Some obj =>
          if negb (episode_done obj) && negb (system_done st)
          then (RParley w ret_val, st)
          else (RExit w ret_val, st)
      end
  | RParley w ret_val =>
      (* line 73 *)
      let '(r, st) := call_world w parley st in
      let st := emit (Worker j) (EvParley w r) st in
      match r with
      | Ok v => (RSleep w v, st)
      | Raise e => (RRaise e, st)
      end
  | RSleep w ret_val =>
      (* line 74 *)
      (RCheck w ret_val, emit (Worker j) (EvSleep 300) st)
  | RExit w ret_val =>
      (* lines 75-77 *)
      let st := emit (Worker j) (EvRelease w) st in
      let '(r, st) := call_world w world_shutdown st in
      match r with
      | Raise e => (RRaise e, st)
      | Ok _ =>
          match worlds st !! w with
          | None => (RRaise (RuntimeError "dangling world reference"), st)
          | Some obj => (RDone ret_val (default ∅ (world_data obj)), st)
          end
      end
  | RDone _ _ | RRaise _ => (pc, st)
  end.

(** ** The executor *)

Definition job_queued (jb : job) : bool :=
  match jb with
  | TaskJob _ _ _ _ TQueued => true
  | OverJob _ _ _ _ _ OQueued => true
  | _ => false
  end.

Definition job_finished (jb : job) : bool :=
  match jb with
  | TaskJob _ _ _ _ (TRun (RDone _ _)) => true
  | TaskJob _ _ _ _ (TRun (RRaise _)) => true
  | OverJob _ _ _ _ _ (ODone _) => true
  | OverJob _ _ _ _ _ (ORaise _) => true
  | _ => false
  end.

Definition job_active (jb : job) : bool :=
  negb (job_queued jb) && negb (job_finished jb).

(** A queued job is picked up when it is the oldest queued job and fewer
    than [max_workers] jobs occupy a worker. *)
Definition can_start (j : nat) st : bool :=
  forallb (λ jb, negb (job_queued jb)) (take j (jobs st))
  && bool_decide (length (filter (λ jb, job_active jb = true) (jobs st))
                  < max_workers st).

(** ** [_world_function], one program point at a time *)

(** Statements that may raise are sequenced with [let!]: the first
    exception ends the block. *)
Definition bind_raise {A B} (m : Runner Opt W → result A * Runner Opt W)
    (k : A → Runner Opt W → result B * Runner Opt W) st
    : result B * Runner Opt W :=
  match m st with
  | (Ok a, st') => k a st'
  | (Raise e, st') => (Raise e, st')
  end.

Notation "'let!' x := m 'in' k" := (bind_raise m (λ x, k))
  (at level 10, x name, m at level 100, k at level 200).

(** The end of a block of an overworld job: an exception becomes the
    failure of the job. *)
Definition over_next (r : result over_pc * Runner Opt W)
    : over_pc * Runner Opt W :=
  match r with
  | (Ok pc, st) => (pc, st)
  | (Raise e, st) => (ORaise e, st)
  end.

(** [onboard_map.get(world_type)] *)
Definition onboard_map_get (onboard_map : gmap string pyval) (wt : pyval)
    : pyval :=
  match wt with
  | PyNone => PyNone
  | PyStr s => default PyNone (onboard_map !! s)
  end.

Definition _world_function (j task : nat) (overworld_name : string)
    (onboard_map : gmap string pyval) (overworld_agent : Agent)
    (agent_state : option string) (pc : over_pc) st
    : over_pc * Runner Opt W :=
  match pc with
  | OQueued => (pc, st)
  | OStart =>
      (* lines 134-137 *)
      match get_world_fn_attr overworld_name with
      | None => (ORaise (AttributeError overworld_name), st)
      | Some world_generator =>
          match world_generator (opt st) [overworld_agent] with
          | Raise e => (ORaise e, st)
          | Ok obj =>
              let ow := length (worlds st) in
              let st := set_worlds (worlds st ++ [obj]) st in
              (OHead ow None,
               emit (Worker j)
                 (EvGenerate ow overworld_name [overworld_agent]) st)
          end
      end
  | OHead ow wt =>
      (* line 138 and, when the loop is left, line 161 *)
      if system_done st then
        match wt with
        | Some v => (ODone v, st)
        | None => (ORaise (UnboundLocalError "world_type"), st)
        end
      else (OParley ow, st)
  | OParley ow =>
      (* lines 139-140 *)
      let '(r, st) := call_world ow parley st in
      let st := emit (Worker j) (EvParley ow r) st in
      match r with
      | Raise e => (ORaise e, st)
      | Ok v => if is_none v then (ORetry ow, st) else (ORoute ow v, st)
      end
  | ORetry ow =>
      (* lines 141-142 *)
      (OHead ow (Some PyNone), emit (Worker j) (EvSleep 500) st)
  | ORoute ow wt =>
      (* lines 145-150 *)
      match onboard_map_get onboard_map wt with
      | PyStr onboard_type =>
          if truthy (PyStr onboard_type) then
            let onboard_id :=
              "onboard-" +:+ agent_id overworld_agent +:+ "-"
              +:+ pretty (now st) in
            over_next
              ((let! agent := (λ st,
                  (_create_agent onboard_id (agent_id overworld_agent),
                   emit (Worker j)
                     (EvCreateAgent onboard_id (agent_id overworld_agent))
                     st)) in
                let! _ := (λ st,
                  call_agent_state agent_state (set_active_agent agent)
                    (emit (Worker j) (EvSetActiveAgent agent_state agent)
                       st)) in
                let! _ := (λ st,
                  call_agent_state agent_state
                    (assign_agent_to_task agent onboard_id)
                    (emit (Worker j)
                       (EvAssignAgent agent_state agent onboard_id) st)) in
                (λ st, (Ok (OOnboard ow wt onboard_type agent RStart), st)))
                 st)
          else (ONotify ow wt, st)
      | PyNone => (ONotify ow wt, st)
      end
  | OOnboard ow wt onboard_type agent rp =>
      (* lines 151-152 *)
      match rp with
      | RDone _ onboard_data =>
          over_next
            ((let! _ := call_agent_state agent_state
                          (set_onboard_data onboard_data) in
              (λ st, (Ok (ONotify ow wt), st))) st)
      | RRaise e => (ORaise e, st)
      | _ =>
          let '(rp', st) := _run_world j task onboard_type [agent] rp st in
          (OOnboard ow wt onboard_type agent rp', st)
      end
  | ONotify ow wt =>
      (* lines 153-154 *)
      let st := emit (Worker j) (EvAddToPool agent_state wt) st in
      let st := add_agent_to_pool agent_state wt st in
      (OSettle ow wt,
       emit (Worker j) (EvLog "onboarding/overworld complete") st)
  | OSettle ow wt =>
      (* line 155 *)
      (OWait ow wt, emit (Worker j) (EvSleep 5000) st)
  | OWait ow wt =>
      (* line 158 *)
      match get_active_agent agent_state st with
      | Raise e => (ORaise e, st)
      | Ok a =>
          if decide (a ≠ overworld_agent) then (OWaitSleep ow wt, st)
          else (OReturn ow wt, st)
      end
  | OWaitSleep ow wt =>
      (* line 159 *)
      (OWait ow wt, emit (Worker j) (EvSleep 2000) st)
  | OReturn ow wt =>
      (* line 160 *)
      let st := emit (Worker j) (EvReturnOverworld ow) st in
      let '(r, st) := call_world ow return_overworld st in
      match r with
      | Raise e => (ORaise e, st)
      | Ok _ => (OHead ow (Some wt), st)
      end
  | ODone _ | ORaise _ => (pc, st)
  end.

(** ** A worker thread advances its job *)

Definition step_job (j : nat) st : Runner Opt W :=
  match jobs st !! j with
  | None => st
  | Some (TaskJob task name wname ags pc) =>
      match pc with
      | TQueued =>
          if can_start j st then
            (* line 98 *)
            let st :=
              emit (Worker j) (EvLog ("Starting task " +:+ name +:+ "..."))
                st in
            set_jobs (<[j := TaskJob task name wname ags (TRun RStart)]>
                        (jobs st)) st
          else st
      | TRun rp =>
          (* line 99 *)
          let '(rp', st) := _run_world j task wname ags rp st in
          set_jobs (<[j := TaskJob task name wname ags (TRun rp')]>
                      (jobs st)) st
      end
  | Some (OverJob task oname omap oagent astate pc) =>
      match pc with
      | OQueued =>
          if can_start j st then
            set_jobs (<[j := OverJob task oname omap oagent astate OStart]>
                        (jobs st)) st
          else st
      | _ =>
          let '(pc', st) :=
            _world_function j task oname omap oagent astate pc st in
          set_jobs (<[j := OverJob task oname omap oagent astate pc']>
                      (jobs st)) st
      end
  end.

(** ** The public operations *)

(** [__init__], lines 24-33 *)
Definition init (o : Opt) (workers : nat) (mgr : Manager) (is_debug : bool)
    : Runner Opt W :=
  _log Caller "Found world module"
    {| opt := opt_set_is_debug is_debug o;
       debug := is_debug;
       max_workers := workers;
       system_done := false;
       tasks := [];
       task_heap := [];
       worlds := [];
       jobs := [];
       executor_down := false;
       manager := mgr;
       now := 0;
       trace := [];
       caller := CIdle |}.

(** [self.executor.submit(fn)]: the executor refuses new work once it has
    been shut down. *)
Definition submit (jb : job) st : result nat * Runner Opt W :=
  if executor_down st then
    (Raise (RuntimeError "cannot schedule new futures after shutdown"), st)
  else
    let fut := length (jobs st) in
    (Ok fut, emit Caller (EvSubmit fut) (set_jobs (jobs st ++ [jb]) st)).

(** [launch_task_world], lines 94-103 *)
Definition launch_task_world (name wname : string) (ags : list Agent) st
    : result nat * Runner Opt W :=
  let task := length (task_heap st) in
  let st :=
    set_task_heap (task_heap st ++ [new_TaskState name wname ags false PyNone])
      st in
  let st := set_tasks (dict_set name task (tasks st)) st in
  (let! fut := submit (TaskJob task name wname ags TQueued) in
   (λ st,
     (Ok fut,
      set_task_heap (alter (set_future (Some fut)) task (task_heap st)) st)))
    st.

(** [self.manager.get_agent_state(agent_id)] *)
Definition get_agent_state (a : string) st : option string :=
  match agent_states (manager st) !! a with
  | Some _ => Some a
  | None => None
  end.

(** [launch_overworld], lines 123-165 *)
Definition launch_overworld (name overworld_name : string)
    (onboard_map : gmap string pyval) (overworld_agent : Agent) st
    : result nat * Runner Opt W :=
  let task := length (task_heap st) in
  let st :=
    set_task_heap
      (task_heap st
       ++ [new_TaskState name overworld_name [overworld_agent] true PyNone])
      st in
  let st := set_tasks (dict_set name task (tasks st)) st in
  let agent_state := get_agent_state (agent_id overworld_agent) st in
  (let! fut :=
     submit (OverJob task overworld_name onboard_map overworld_agent
               agent_state OQueued) in
   (λ st,
     (Ok fut,
      set_task_heap (alter (set_future (Some fut)) task (task_heap st)) st)))
    st.

(** An exception leaves [shutdown]: the caller is back outside of it. *)
Definition caller_raise (e : exn) st : Runner Opt W :=
  set_caller CIdle (emit Caller (EvRaised e) st).

(** [shutdown] is entered: the [for] loop of line 42 starts. *)
Definition shutdown_enter st : Runner Opt W :=
  match caller st with
  | CIdle => set_caller (CRelease 0 (length (tasks st))) st
  | _ => st
  end.

(** [shutdown], lines 42-49, one program point at a time *)
Definition shutdown_step st : Runner Opt W :=
  match caller st with
  | CIdle => st
  | CRelease i n =>
      (* lines 42-44 *)
      if decide (length (tasks st) = n) then
        match tasks st !! i with
        | None => set_caller CSetDone st
        | Some (_, task) =>
            match task_heap st !! task with
            | None =>
                caller_raise (RuntimeError "dangling task reference") st
            | Some t =>
                match world t with
                | None => set_caller (CRelease (S i) n) st
                | Some w =>
                    let st := emit Caller (EvRelease w) st in
                    let '(r, st) := call_world w world_shutdown st in
                    match r with
                    | Raise e => caller_raise e st
                    | Ok _ => set_caller (CRelease (S i) n) st
                    end
                end
            end
        end
      else
        caller_raise
          (RuntimeError "dictionary changed size during iteration") st
  | CSetDone =>
      (* lines 46-47 *)
      let st := emit Caller EvSetSystemDone (set_system_done true st) in
      set_caller CExecShutdown (_log Caller "Executor shutting down." st)
  | CExecShutdown =>
      (* line 48: the executor stops accepting work ... *)
      set_caller CJoin
        (emit Caller EvExecutorShutdown (set_executor_down true st))
  | CJoin =>
      (* ... and waits for its workers; line 49 *)
      if forallb job_finished (jobs st) then
        set_caller CIdle
          (emit Caller EvReturned (_log Caller "Shutdown complete." st))
      else st
  end.

(** ** Schedules *)

(** What can happen next: a launch call, a call of [shutdown] or its next
    program point, a worker advancing its job, and the two moves of the
    outside world that the runner observes: the manager changing an
    agent state's active agent, and time passing. *)
Inductive action :=
| LaunchTaskWorld (name wname : string) (ags : list Agent)
| LaunchOverworld (name overworld_name : string)
    (onboard_map : gmap string pyval) (overworld_agent : Agent)
| CallShutdown
| StepShutdown
| StepJob (j : nat)
| ManagerSetActive (owner : string) (a : Agent)
| Tick (d : nat).

(** A call made by the caller thread, with its exception recorded. *)
Definition caller_call {A} (r : result A * Runner Opt W) : Runner Opt W :=
  match r with
  | (Ok _, st) => st
  | (Raise e, st) => emit Caller (EvRaised e) st
  end.

Definition step (a : action) st : Runner Opt W :=
  match a with
  | LaunchTaskWorld name wname ags =>
      caller_call (launch_task_world name wname ags st)
  | LaunchOverworld name oname omap oagent =>
      caller_call (launch_overworld name oname omap oagent st)
  | CallShutdown => shutdown_enter st
  | StepShutdown => shutdown_step st
  | StepJob j => step_job j st
  | ManagerSetActive owner a =>
      set_manager
        {| agent_states :=
             alter (set_active_agent a) owner (agent_states (manager st));
           agent_pool := agent_pool (manager st) |} st
  | Tick d => set_now (now st + d) st
  end.

Definition run (acts : list action) st : Runner Opt W :=
  foldl (λ st a, step a st) st acts.

(** ** Observations *)

Definition job_task_pc (jb : job) : option run_pc :=
  match jb with
  | TaskJob _ _ _ _ (TRun rp) => Some rp
  | OverJob _ _ _ _ _ (OOnboard _ _ _ _ rp) => Some rp
  | _ => None
  end.

Definition job_over_pc (jb : job) : option over_pc :=
  match jb with
  | OverJob _ _ _ _ _ pc => Some pc
  | TaskJob _ _ _ _ _ => None
  end.

(** The task state object a job works on. *)
Definition job_task (jb : job) : nat :=
  match jb with
  | TaskJob task _ _ _ _ => task
  | OverJob task _ _ _ _ _ => task
  end.

(** The action is line 46 of [shutdown], [self.system_done = True]. *)
Definition sets_stop_flag (a : action) st : bool :=
  match a, caller st with
  | StepShutdown, CSetDone => true
  | _, _ => false
  end.

(** How often the stop flag changes its value along a schedule. *)
Fixpoint flag_flips (acts : list action) st : nat :=
  match acts with
  | [] => 0
  | a :: acts' =>
      (if bool_decide (system_done (step a st) = system_done st)
       then 0 else 1)
      + flag_flips acts' (step a st)
  end.

(** The session a run of [_run_world] holds in its local [world]. *)
Definition run_pc_world (rp : run_pc) : option nat :=
  match rp with
  | RCheck w _ | RParley w _ | RSleep w _ | RExit w _ => Some w
  | RStart | RDone _ _ | RRaise _ => None
  end.

(** The sessions a job holds in its local variables. *)
Definition job_worlds (jb : job) : list nat :=
  match jb with
  | TaskJob _ _ _ _ TQueued => []
  | TaskJob _ _ _ _ (TRun rp) => option_list (run_pc_world rp)
  | OverJob _ _ _ _ _ pc =>
      match pc with
      | OQueued | OStart | ODone _ | ORaise _ => []
      | OHead ow _ | OParley ow | ORetry ow | ORoute ow _ | ONotify ow _
      | OSettle ow _ | OWait ow _ | OWaitSleep ow _ | OReturn ow _ => [ow]
      | OOnboard ow _ _ _ rp => ow :: option_list (run_pc_world rp)
      end
  end.

(** [n] consecutive program points of one run of [_run_world]. *)
Fixpoint run_world_steps (n : nat) (j task : nat) (wname : string)
    (ags : list Agent) (rp : run_pc) st : run_pc * Runner Opt W :=
  match n with
  | 0 => (rp, st)
  | S n' =>
      let '(rp', st') := _run_world j task wname ags rp st in
      run_world_steps n' j task wname ags rp' st'
  end.

(** [n] consecutive program points of [_world_function]. *)
Fixpoint over_steps (n : nat) (j task : nat) (overworld_name : string)
    (onboard_map : gmap string pyval) (overworld_agent : Agent)
    (agent_state : option string) (pc : over_pc) st
    : over_pc * Runner Opt W :=
  match n with
  | 0 => (pc, st)
  | S n' =>
      let '(pc', st') :=
        _world_function j task overworld_name onboard_map overworld_agent
          agent_state pc st in
      over_steps n' j task overworld_name onboard_map overworld_agent
        agent_state pc' st'
  end.

(** The next [n] steps of a session all return [None]. *)
Fixpoint all_none (n : nat) (obj : W) : bool :=
  match n with
  | 0 => true
  | S n' =>
      match (parley obj).1 with
      | Ok PyNone => all_none n' (parley obj).2
      | _ => false
      end
  end.

Definition after_parleys (n : nat) (obj : W) : W :=
  Nat.iter n (λ o, (parley o).2) obj.

(** The sessions that the release pass of [shutdown] visits, in order:
    those stored on the task states of the registry. *)
Definition sessions_of (heap : list TaskState)
    (entries : list (string * nat)) : list nat :=
  omap (λ e : string * nat, heap !! e.2 ≫= world) entries.

Definition live_sessions st : list nat :=
  sessions_of (task_heap st) (tasks st).

Definition is_release (w : nat) (x : thread * event) : bool :=
  match x.2 with
  | EvRelease w' => bool_decide (w' = w)
  | _ => false
  end.

(** The release calls on session [w] in a trace. *)
Definition releases_of (w : nat) (tr : list (thread * event))
    : list (thread * event) :=
  filter (λ x, is_release w x = true) tr.

(** However often the session is released, the release does not raise. *)
Definition release_never_fails (obj : W) : Prop :=
  ∀ k, (world_shutdown (Nat.iter k (λ o, (world_shutdown o).2) obj)).1
       = Ok ().

(** The world heap after the release of the sessions [ws], one by one. *)
Definition release_worlds (ws : list nat) (heap : list W) : list W :=
  foldl (λ h w, alter (λ o, (world_shutdown o).2) w h) heap ws.

(** How many program points a job is away, at most, from having left the
    stepping loop of [_run_world] for good once the stop flag is true;
    [None] where there is no such bound. *)
Definition run_bound (rp : run_pc) : nat :=
  match rp with
  | RParley _ _ => 3
  | RSleep _ _ | RStart => 2
  | RCheck _ _ => 1
  | RExit _ _ | RDone _ _ | RRaise _ => 0
  end.

Definition exit_bound (jb : job) : option nat :=
  match jb with
  | TaskJob _ _ _ _ TQueued => None
  | TaskJob _ _ _ _ (TRun rp) => Some (run_bound rp)
  | OverJob _ _ _ _ _ pc =>
      match pc with
      | OQueued | OParley _ | ORoute _ _ => None
      | OOnboard _ _ _ _ rp => Some (run_bound rp)
      | _ => Some 0
      end
  end.

(** The job is inside the stepping loop of [_run_world], lines 72-74. *)
Definition in_running_loop (jb : job) : bool :=
  match job_task_pc jb with
  | Some (RCheck _ _ | RParley _ _ | RSleep _ _) => true
  | _ => false
  end.

(** The number of program points job [j] advances in a schedule. *)
Fixpoint steps_of (j : nat) (acts : list action) : nat :=
  match acts with
  | [] => 0
  | StepJob i :: acts' => (if decide (i = j) then 1 else 0) + steps_of j acts'
  | _ :: acts' => steps_of j acts'
  end.

(** A job only touches the world heap, the task states, the manager and
    the trace: the configuration, the stop flag, the registry, the list of
    submitted jobs, the executor's mark, the clock and the caller's program
    point are the same before and after. *)
Record untouched st st' : Prop := mk_untouched {
  un_opt : opt st' = opt st;
  un_debug : debug st' = debug st;
  un_max_workers : max_workers st' = max_workers st;
  un_system_done : system_done st' = system_done st;
  un_tasks : tasks st' = tasks st;
  un_jobs : jobs st' = jobs st;
  un_executor_down : executor_down st' = executor_down st;
  un_now : now st' = now st;
  un_caller : caller st' = caller st;
}.

(** The session that the run of [_run_world] a job is in holds in its
    local [world]. *)
Definition job_session (jb : job) : option nat :=
  job_task_pc jb ≫= run_pc_world.

(** The session stored on task state [t], if there is one. *)
Definition stored_session st (t : nat) : option nat :=
  task_heap st !! t ≫= world.

(** What holds of the references in every state the runner can get into:
    registry entries refer to task states and no two entries to the same
    one, a stored session exists and is stored on one task state only, jobs
    work on task states of their own, and the session of a run under way is
    the one stored on the job's task state. *)
Record wf st : Prop := mk_wf {
  wf_registry : ∀ e, e ∈ tasks st → e.2 < length (task_heap st);
  wf_registry_nodup : NoDup (tasks st).*2;
  wf_names_nodup : NoDup (tasks st).*1;
  wf_session :
    ∀ t w, stored_session st t = Some w → w < length (worlds st);
  wf_session_inj :
    ∀ t1 t2 w,
      stored_session st t1 = Some w → stored_session st t2 = Some w →
      t1 = t2;
  wf_job_task :
    ∀ j jb, jobs st !! j = Some jb → job_task jb < length (task_heap st);
  wf_job_task_inj :
    ∀ i j jb1 jb2,
      jobs st !! i = Some jb1 → jobs st !! j = Some jb2 →
      job_task jb1 = job_task jb2 → i = j;
  wf_job_session :
    ∀ j jb w,
      jobs st !! j = Some jb → job_session jb = Some w →
      stored_session st (job_task jb) = Some w;
}.













End Semantics.

Arguments Services Opt W : clear implicits.

(** ** A concrete world module

    Scripted sessions used to run the model on concrete inputs: [parley]
    plays the next entry of a script (and returns [None] once the script is
    over), the episode is complete once the script is over, and [shutdown]
    counts its calls, or raises when the session was built to fail. *)
Module Demo.

Record Scripted := mkScripted {
  script : list (result pyval);
  releases : nat;
  release_fails : bool;
  attr_data : option payload;
  returns : nat;
}.

#[global] Instance Scripted_World : World Scripted := {|
  parley s :=
    match script s with
    | [] => (Ok PyNone, s)
    | r :: rest =>
        (r, {| script := rest; releases := releases s;
               release_fails := release_fails s;
               attr_data := attr_data s; returns := returns s |})
    end;
  episode_done s := bool_decide (script s = []);
  world_shutdown s :=
    if release_fails s then (Raise (WorldError "release failed"), s)
    else
      (Ok (),
       {| script := script s; releases := S (releases s);
          release_fails := false;
          attr_data := attr_data s; returns := returns s |});
  world_data := attr_data;
  return_overworld s :=
    (Ok (),
     {| script := script s; releases := releases s;
        release_fails := release_fails s;
        attr_data := attr_data s; returns := S (returns s) |});
|}.

Definition scripted (rs : list (result pyval)) (fails : bool)
    (d : option payload) : unit → list Agent → result Scripted :=
  λ _ _, Ok {| script := rs; releases := 0; release_fails := fails;
               attr_data := d; returns := 0 |}.

(** The world module: two task worlds, an onboarding world, a world whose
    release raises, a world that cannot be built, and three overworlds. *)
Definition world_module (name : string)
    : option (unit → list Agent → result Scripted) :=
  if decide (name = "TaskWorld") then
    Some (scripted [Ok (PyStr "hello"); Ok (PyStr "bye")] false
            (Some {["turns" := PyStr "2"]}))
  else if decide (name = "PlainWorld") then
    Some (scripted [Ok (PyStr "only")] false None)
  else if decide (name = "OnboardWorld") then
    Some (scripted [Ok (PyStr "welcome")] false
            (Some {["name" := PyStr "ann"]}))
  else if decide (name = "StuckWorld") then
    Some (scripted [Ok (PyStr "a"); Ok (PyStr "b"); Ok (PyStr "c")] true None)
  else if decide (name = "NoWorld") then
    Some (λ _ _, Raise (WorldError "cannot build"))
  else if decide (name = "Overworld") then
    Some (scripted [Ok PyNone; Ok (PyStr "quiz"); Ok (PyStr "chat")] false
            None)
  else if decide (name = "QuietOverworld") then
    Some (scripted [] false None)
  else if decide (name = "BlankOverworld") then
    Some (scripted [Ok (PyStr "")] false None)
  else None.

#[global] Instance services : Services unit Scripted := {|
  get_world_fn_attr := world_module;
  _create_agent new_id _ := Ok (mkAgent new_id);
  opt_set_is_debug _ o := o;
|}.

Definition ann : Agent := mkAgent "ann".
Definition bob : Agent := mkAgent "bob".

(** The manager knows [ann], whose active agent is herself. *)
Definition mgr : Manager :=
  {| agent_states := {["ann" := mkAgentState ann [] None]};
     agent_pool := [] |}.

(** Routes to onboarding kinds: [chat] has one, [quiz] is listed without
    one. *)
Definition onboard_map : gmap string pyval :=
  {["chat" := PyStr "OnboardWorld"; "quiz" := PyNone]}.

Definition runner0 : Runner unit Scripted := init () 2 mgr false.

(** A task world has been launched; its job is at the loop condition for
    the first time. *)
Definition task_running : Runner unit Scripted :=
  run [LaunchTaskWorld "t" "TaskWorld" [ann]; StepJob 0; StepJob 0] runner0.

(** The same job, one program point later, when [shutdown] has run up to
    and including line 46. *)
Definition task_stopping : Runner unit Scripted :=
  run [StepJob 0; CallShutdown; StepShutdown; StepShutdown; StepShutdown]
    task_running.

(** The same job when both steps of the script have been made. *)
Definition task_complete : Runner unit Scripted :=
  run (replicate 6 (StepJob 0)) task_running.

(** A task world whose session fails to release is running and [shutdown]
    has just been called. *)
Definition stuck_shutdown : Runner unit Scripted :=
  run [LaunchTaskWorld "s" "StuckWorld" [bob]; StepJob 0; StepJob 0;
       CallShutdown] runner0.

(** An overworld has been launched for [ann]; its job has not started. *)
Definition overworld_launched : Runner unit Scripted :=
  run [LaunchOverworld "o" "Overworld" onboard_map ann] runner0.

(** [shutdown] got to line 46 before the overworld job evaluated its loop
    condition for the first time. *)
Definition stopped_early : Runner unit Scripted :=
  run [CallShutdown; StepShutdown; StepShutdown; StepShutdown;
       StepJob 0; StepJob 0] overworld_launched.

(** The overworld job at its loop condition for the first time. *)
Definition supervising : Runner unit Scripted :=
  run [StepJob 0; StepJob 0] overworld_launched.

(** The first route, [None], was re-polled and the second, [quiz], has
    just been returned. *)
Definition routed_quiz : Runner unit Scripted :=
  run (replicate 5 (StepJob 0)) supervising.

(** [quiz] was handed over, the third route, [chat], has just been
    returned. *)
Definition routed_chat : Runner unit Scripted :=
  run (replicate 7 (StepJob 0)) routed_quiz.

(** The onboarding run for [chat] has returned. *)
Definition onboarded : Runner unit Scripted :=
  run (replicate 7 (StepJob 0)) routed_chat.

(** The participant was handed over after onboarding and the overworld job
    polls for the return; [shutdown] has run up to and including line
    46. *)
Definition waiting_stopped : Runner unit Scripted :=
  run (replicate 4 (StepJob 0)
       ++ [CallShutdown; StepShutdown; StepShutdown; StepShutdown])
    onboarded.

(** An overworld whose steps return no route, after fifty program
    points. *)
Definition quiet_supervising : Runner unit Scripted :=
  run (LaunchOverworld "q" "QuietOverworld" onboard_map ann
       :: replicate 50 (StepJob 0)) runner0.

(** An overworld whose first step returns the empty string, at its loop
    condition for the first time. *)
Definition blank_supervising : Runner unit Scripted :=
  run [LaunchOverworld "b" "BlankOverworld" onboard_map ann;
       StepJob 0; StepJob 0] runner0.

End Demo.

(** ** A session that cannot be stepped once it is released

    The session makes a given number of steps; [shutdown] closes it, and a
    step on a closed session raises. *)
Module Fragile.

Record Session := mkSession {
  turns_left : nat;
  closed : bool;
}.

#[export] Instance Session_World : World Session := {|
  parley s :=
    if closed s then (Raise (WorldError "session is closed"), s)
    else (Ok (PyStr "turn"),
          {| turns_left := pred (turns_left s); closed := false |});
  episode_done s := bool_decide (turns_left s = 0);
  world_shutdown s := (Ok (), {| turns_left := turns_left s; closed := true |});
  world_data _ := None;
  return_overworld s := (Ok (), s);
|}.

Definition fragile_module (name : string)
    : option (unit → list Agent → result Session) :=
  if decide (name = "FragileWorld") then
    Some (λ _ _, Ok {| turns_left := 3; closed := false |})
  else None.

#[export] Instance fragile_services : Services unit Session := {|
  get_world_fn_attr := fragile_module;
  _create_agent new_id _ := Ok (mkAgent new_id);
  opt_set_is_debug _ o := o;
|}.




End Fragile.

(** * Properties *)

Section Properties.
Context {Opt W : Type} `{!World W} `{!Services Opt W}.
Implicit Types st : Runner Opt W.

(** ** What a worker leaves alone *)

Lemma untouched_refl st : untouched st st.
Proof. by split. Qed.

Lemma untouched_trans st1 st2 st3 :
  untouched st1 st2 → untouched st2 st3 → untouched st1 st3.
Proof. intros [] []; split; congruence. Qed.

Lemma emit_untouched th e st : untouched st (emit th e st).
Proof. by split. Qed.

Lemma call_world_untouched {A} w (m : W → result A * W) st :
  untouched st (call_world w m st).2.
Proof.
  unfold call_world. destruct (worlds st !! w) as [obj|]; [|by split].
  destruct (m obj). by split.
Qed.

Lemma call_agent_state_untouched k m st :
  untouched st (call_agent_state k m st).2.
Proof.
  unfold call_agent_state. destruct k as [a|]; [|by split].
  destruct (agent_states (manager st) !! a); by split.
Qed.

Lemma add_agent_to_pool_untouched k r st :
  untouched st (add_agent_to_pool k r st).
Proof. by split. Qed.

(** Case analysis on the calls and tests of a step, keeping what each call
    leaves alone. *)
Ltac step_cases :=
  repeat match goal with
  | |- context [call_world ?w ?m ?s] =>
      let Hu := fresh "Hu" in
      pose proof (call_world_untouched w m s) as Hu;
      destruct (call_world w m s) as [? ?]; simpl in Hu
  | |- context [call_agent_state ?k ?m ?s] =>
      let Hu := fresh "Hu" in
      pose proof (call_agent_state_untouched k m s) as Hu;
      destruct (call_agent_state k m s) as [? ?]; simpl in Hu
  | |- context [match ?x with _ => _ end] =>
      lazymatch x with
      | context [match _ with _ => _ end] => fail
      | context [call_world _ _ _] => fail
      | context [call_agent_state _ _ _] => fail
      | _ => destruct x eqn:?
      end
  end.

Ltac untouched_tac :=
  repeat match goal with H : untouched _ _ |- _ => destruct H end;
  split; simpl in *; congruence.

Lemma run_world_untouched j task wname ags pc st :
  untouched st (_run_world j task wname ags pc st).2.
Proof.
  destruct pc; cbn [_run_world]; step_cases; untouched_tac.
Qed.

Lemma world_function_untouched j task oname omap oagent astate pc st :
  untouched st (_world_function j task oname omap oagent astate pc st).2.
Proof.
  destruct pc as [| |ow wt|ow|ow|ow wt|ow wt k agent rp|ow wt|ow wt|ow wt
                 |ow wt|ow wt|wt|e];
    cbn [_world_function]; unfold over_next, bind_raise; cbv beta;
    try (step_cases; untouched_tac).
  pose proof (run_world_untouched j task k [agent] rp st) as Hr.
  destruct rp; try (destruct (_run_world _ _ _ _ _ _)); simpl in *;
    try done; unfold over_next, bind_raise; step_cases; untouched_tac.
Qed.

Lemma step_job_untouched j st :
  opt (step_job j st) = opt st ∧ debug (step_job j st) = debug st
  ∧ max_workers (step_job j st) = max_workers st
  ∧ system_done (step_job j st) = system_done st
  ∧ tasks (step_job j st) = tasks st
  ∧ executor_down (step_job j st) = executor_down st
  ∧ now (step_job j st) = now st
  ∧ caller (step_job j st) = caller st.
Proof.
  unfold step_job.
  destruct (jobs st !! j)
    as [[task name wname ags pc|task oname omap oagent astate pc]|];
    [| |done].
  - destruct pc as [|rp].
    + by destruct (can_start j st).
    + pose proof (run_world_untouched j task wname ags rp st) as Hu.
      destruct (_run_world _ _ _ _ _ _); simpl in *. by destruct Hu.
  - pose proof (world_function_untouched j task oname omap oagent astate
                  pc st) as Hu.
    destruct pc;
      try (destruct (_world_function _ _ _ _ _ _ _ _); simpl in *;
           by destruct Hu).
    by destruct (can_start j st).
Qed.

Lemma step_job_system_done j st :
  system_done (step_job j st) = system_done st.
Proof. apply step_job_untouched. Qed.



Lemma step_job_executor_down j st :
  executor_down (step_job j st) = executor_down st.
Proof. apply step_job_untouched. Qed.

(** A worker only rewrites its own slot of the executor's job list. *)
Lemma step_job_jobs j st :
  ∃ jb, jobs (step_job j st) = <[j := jb]> (jobs st).
Proof.
  unfold step_job.
  destruct (jobs st !! j)
    as [[task name wname ags pc|task oname omap oagent astate pc]|] eqn:Hj.
  - destruct pc as [|rp].
    + destruct (can_start j st); simpl; eauto.
      eexists. by rewrite list_insert_id.
    + pose proof (run_world_untouched j task wname ags rp st) as Hu.
      destruct (_run_world _ _ _ _ _ _); simpl in *.
      destruct Hu. eexists. by f_equal.
  - pose proof (world_function_untouched j task oname omap oagent astate
                  pc st) as Hu.
    destruct pc;
      try (destruct (_world_function _ _ _ _ _ _ _ _); simpl in *;
           destruct Hu; eexists; by f_equal).
    destruct (can_start j st); simpl; eauto.
    eexists. by rewrite list_insert_id.
  - exists (TaskJob 0 "" "" [] TQueued).
    rewrite list_insert_ge; [done|]. by apply lookup_ge_None.
Qed.

Lemma step_job_other i j st :
  i ≠ j → jobs (step_job j st) !! i = jobs st !! i.
Proof.
  intros Hij. destruct (step_job_jobs j st) as [jb ->].
  by apply list_lookup_insert_ne.
Qed.

Lemma step_job_length j st :
  length (jobs (step_job j st)) = length (jobs st).
Proof.
  destruct (step_job_jobs j st) as [jb ->]. apply length_insert.
Qed.

(** ** The stop flag *)

Lemma launch_task_world_system_done name wname ags st :
  system_done (launch_task_world name wname ags st).2 = system_done st.
Proof.
  unfold launch_task_world, bind_raise, submit; simpl.
  by destruct (executor_down st).
Qed.

Lemma launch_overworld_system_done name oname omap oagent st :
  system_done (launch_overworld name oname omap oagent st).2
  = system_done st.
Proof.
  unfold launch_overworld, bind_raise, submit; simpl.
  by destruct (executor_down st).
Qed.

Lemma caller_call_system_done {A} (r : result A * Runner Opt W) :
  system_done (caller_call r) = system_done r.2.
Proof. by destruct r as [[a|e] st]. Qed.

Lemma shutdown_step_system_done st :
  system_done (shutdown_step st)
  = system_done st || sets_stop_flag StepShutdown st.
Proof.
  unfold shutdown_step, sets_stop_flag, caller_raise, _log.
  destruct (caller st) as [|i n| | |]; simpl;
    rewrite ?orb_false_r, ?orb_true_r; try done.
  - step_cases; simpl; try done; by destruct Hu.
  - by destruct (debug st).
  - by destruct (forallb _ _), (debug st).
Qed.

Lemma step_system_done a st :
  system_done (step a st) = system_done st || sets_stop_flag a st.
Proof.
  destruct a; simpl.
  - rewrite caller_call_system_done, launch_task_world_system_done.
    by rewrite orb_false_r.
  - rewrite caller_call_system_done, launch_overworld_system_done.
    by rewrite orb_false_r.
  - unfold shutdown_enter. rewrite orb_false_r. by destruct (caller st).
  - apply shutdown_step_system_done.
  - by rewrite step_job_system_done, orb_false_r.
  - by rewrite orb_false_r.
  - by rewrite orb_false_r.
Qed.

Lemma step_system_done_mono a st :
  system_done st = true → system_done (step a st) = true.
Proof. intros Hd. by rewrite step_system_done, Hd. Qed.

Lemma run_system_done_mono acts st :
  system_done st = true → system_done (run acts st) = true.
Proof.
  revert st. induction acts as [|a acts IH]; intros st Hd; [done|].
  simpl. apply IH. by apply step_system_done_mono.
Qed.

Lemma flag_flips_bound acts st :
  flag_flips acts st ≤ (if system_done st then 0 else 1).
Proof.
  revert st. induction acts as [|a acts IH]; intros st; simpl.
  - destruct (system_done st); lia.
  - specialize (IH (step a st)).
    pose proof (step_system_done a st) as Hs.
    destruct (system_done st) eqn:Hd; simpl in Hs.
    + rewrite Hs in IH |- *. rewrite bool_decide_eq_true_2 by done. lia.
    + case_bool_decide as Heq.
      * rewrite Heq in IH. lia.
      * destruct (system_done (step a st)); [lia|done].
Qed.

(** C9.  The stop flag is false when the runner is constructed; an action
    changes it only by or-ing in line 46 of [shutdown], so it is never
    reset and no other operation writes it; a worker advancing a loop
    leaves it as it is; and along any schedule it changes its value at most
    once. *)
Theorem stop_flag_write_once :
  (∀ (o : Opt) workers mgr is_debug,
     system_done (init o workers mgr is_debug) = false)
  ∧ (∀ a st, system_done (step a st) = system_done st || sets_stop_flag a st)
  ∧ (∀ j st, system_done (step (StepJob j) st) = system_done st)
  ∧ (∀ acts st, flag_flips acts st ≤ 1).
Proof.
  split_and!.
  - intros. unfold init, _log. by destruct is_debug.
  - apply step_system_done.
  - intros. apply step_job_system_done.
  - intros. etrans; [apply flag_flips_bound|].
    destruct (system_done _); lia.
Qed.

(** ** Independence of jobs *)

(** Unfolds the calls of a step and splits on every test, innermost
    first. *)
Ltac crush_step :=
  unfold over_next, bind_raise, call_world, call_agent_state,
    add_agent_to_pool, get_active_agent, _log, emit;
  cbv beta;
  repeat match goal with
  | |- context [match ?x with _ => _ end] =>
      lazymatch x with
      | context [match _ with _ => _ end] => fail
      | _ => destruct x eqn:?
      end
  end;
  simpl.

Lemma run_world_worlds_frame j task wname ags rp st w' :
  run_pc_world rp ≠ Some w' → w' < length (worlds st) →
  worlds (_run_world j task wname ags rp st).2 !! w' = worlds st !! w'.
Proof.
  intros Hw Hlt.
  destruct rp; cbn [_run_world]; simpl in Hw; crush_step; try done.
  all: try (apply list_lookup_insert_ne; congruence).
  by apply lookup_app_l.
Qed.

Lemma run_world_task_heap_frame j task wname ags rp st t :
  t ≠ task →
  task_heap (_run_world j task wname ags rp st).2 !! t = task_heap st !! t.
Proof.
  intros Ht. destruct rp; cbn [_run_world]; crush_step; try done.
  by apply list_lookup_alter_ne.
Qed.

Lemma world_function_worlds_frame j task oname omap oagent astate pc st w' :
  w' ∉ job_worlds (OverJob task oname omap oagent astate pc) →
  w' < length (worlds st) →
  worlds (_world_function j task oname omap oagent astate pc st).2 !! w'
  = worlds st !! w'.
Proof.
  intros Hw Hlt.
  destruct pc as [| |ow wt|ow|ow|ow wt|ow wt k agent rp|ow wt|ow wt|ow wt
                 |ow wt|ow wt|wt|e];
    cbn [_world_function]; simpl in Hw.
  7: {
    pose proof (run_world_worlds_frame j task k [agent] rp st w') as Hr.
    destruct rp; try (destruct (_run_world _ _ _ _ _ _) eqn:?; simpl in *;
      apply Hr; [set_solver|done]).
    all: crush_step; done. }
  all: crush_step; try done.
  all: try (apply list_lookup_insert_ne; set_solver).
  by apply lookup_app_l.
Qed.

Lemma world_function_task_heap_frame j task oname omap oagent astate pc st t :
  t ≠ task →
  task_heap (_world_function j task oname omap oagent astate pc st).2 !! t
  = task_heap st !! t.
Proof.
  intros Ht.
  destruct pc as [| |ow wt|ow|ow|ow wt|ow wt k agent rp|ow wt|ow wt|ow wt
                 |ow wt|ow wt|wt|e];
    cbn [_world_function].
  7: {
    pose proof (run_world_task_heap_frame j task k [agent] rp st t Ht) as Hr.
    destruct rp; try (by destruct (_run_world _ _ _ _ _ _) eqn:?).
    all: crush_step; done. }
  all: crush_step; done.
Qed.

(** The state a worker step leaves behind, but for the job list. *)
Lemma step_job_task_run j st task name wname ags rp :
  jobs st !! j = Some (TaskJob task name wname ags (TRun rp)) →
  step_job j st
  = set_jobs
      (<[j := TaskJob task name wname ags
                (TRun (_run_world j task wname ags rp st).1)]> (jobs st))
      (_run_world j task wname ags rp st).2.
Proof.
  intros Hj. unfold step_job. rewrite Hj.
  pose proof (run_world_untouched j task wname ags rp st) as Hu.
  destruct (_run_world _ _ _ _ _ _) as [rp' st']; simpl in *.
  by rewrite (un_jobs _ _ Hu).
Qed.

Lemma step_job_over_run j st task oname omap oagent astate pc :
  jobs st !! j = Some (OverJob task oname omap oagent astate pc) →
  pc ≠ OQueued →
  step_job j st
  = set_jobs
      (<[j := OverJob task oname omap oagent astate
                (_world_function j task oname omap oagent astate pc st).1]>
         (jobs st))
      (_world_function j task oname omap oagent astate pc st).2.
Proof.
  intros Hj Hpc. unfold step_job. rewrite Hj.
  pose proof (world_function_untouched j task oname omap oagent astate pc st)
    as Hu.
  destruct pc; try done;
    destruct (_world_function _ _ _ _ _ _ _ _) as [pc' st']; simpl in *;
    by rewrite (un_jobs _ _ Hu).
Qed.

Lemma step_job_queued j st jb :
  jobs st !! j = Some jb → job_queued jb = true →
  worlds (step_job j st) = worlds st
  ∧ task_heap (step_job j st) = task_heap st
  ∧ manager (step_job j st) = manager st.
Proof.
  intros Hj Hq. unfold step_job. rewrite Hj.
  destruct jb as [? ? ? ? [|?]|? ? ? ? ? []]; try done;
    by destruct (can_start j st).
Qed.


Lemma step_job_worlds_frame j st jb w' :
  jobs st !! j = Some jb → w' ∉ job_worlds jb → w' < length (worlds st) →
  worlds (step_job j st) !! w' = worlds st !! w'.
Proof.
  intros Hj Hw Hlt.
  destruct (job_queued jb) eqn:Hq.
  { by destruct (step_job_queued j st jb Hj Hq) as (-> & _). }
  destruct jb as [task name wname ags [|rp]|task oname omap oagent astate pc];
    [done| |].
  - rewrite (step_job_task_run _ _ _ _ _ _ _ Hj). simpl.
    apply run_world_worlds_frame; [|done].
    simpl in Hw. destruct (run_pc_world rp); set_solver.
  - rewrite (step_job_over_run _ _ _ _ _ _ _ _ Hj) by by destruct pc.
    simpl. by apply world_function_worlds_frame.
Qed.

Lemma step_job_task_heap_frame j st jb t :
  jobs st !! j = Some jb → t ≠ job_task jb →
  task_heap (step_job j st) !! t = task_heap st !! t.
Proof.
  intros Hj Ht.
  destruct (job_queued jb) eqn:Hq.
  { by destruct (step_job_queued j st jb Hj Hq) as (_ & -> & _). }
  destruct jb as [task name wname ags [|rp]|task oname omap oagent astate pc];
    [done| |].
  - rewrite (step_job_task_run _ _ _ _ _ _ _ Hj). simpl.
    by apply run_world_task_heap_frame.
  - rewrite (step_job_over_run _ _ _ _ _ _ _ _ Hj) by by destruct pc.
    simpl. by apply world_function_task_heap_frame.
Qed.

(** ** The registry *)

Lemma dict_get_set_eq k v d : dict_get k (dict_set k v d) = Some v.
Proof.
  induction d as [|[k' v'] d IH]; simpl.
  - by rewrite decide_True.
  - destruct (decide (k' = k)); simpl.
    + by rewrite decide_True.
    + by rewrite decide_False.
Qed.

Lemma dict_get_set_ne k k' v d :
  k' ≠ k → dict_get k' (dict_set k v d) = dict_get k' d.
Proof.
  intros Hk. induction d as [|[k1 v1] d IH]; simpl.
  - by rewrite decide_False.
  - destruct (decide (k1 = k)) as [->|]; simpl.
    + by rewrite !decide_False.
    + destruct (decide (k1 = k')); done.
Qed.

(** Assigning to a key that is present adds no entry. *)
Lemma dict_set_keys_present k v d :
  is_Some (dict_get k d) → (dict_set k v d).*1 = d.*1.
Proof.
  induction d as [|[k' v'] d IH]; simpl; intros Hk.
  - by destruct Hk.
  - destruct (decide (k' = k)) as [->|]; simpl; [done|].
    f_equal. by apply IH.
Qed.




(** C7.  A second launch under a task name that is already in the registry
    makes the entry of that name refer to the new task state and adds no
    entry; the first launch's job, its task state (with its handle and its
    session) and every session stay as they are, and the new job is queued
    behind them.  From then on a worker advancing one job leaves every other
    job's program point, every task state but its own and every session but
    its own untouched, so both jobs proceed independently. *)
Theorem relaunch_keeps_first_job name wname ags st task1 :
  dict_get name (tasks st) = Some task1 →
  executor_down st = false →
  let r := launch_task_world name wname ags st in
  r.1 = Ok (length (jobs st))
  ∧ dict_get name (tasks r.2) = Some (length (task_heap st))
  ∧ (tasks r.2).*1 = (tasks st).*1
  ∧ (∀ k, k ≠ name → dict_get k (tasks r.2) = dict_get k (tasks st))
  ∧ (∀ i jb, jobs st !! i = Some jb → jobs r.2 !! i = Some jb)
  ∧ jobs r.2 !! length (jobs st)
    = Some (TaskJob (length (task_heap st)) name wname ags TQueued)
  ∧ (∀ t ts, task_heap st !! t = Some ts → task_heap r.2 !! t = Some ts)
  ∧ worlds r.2 = worlds st
  ∧ (∀ i j s, i ≠ j → jobs (step (StepJob j) s) !! i = jobs s !! i)
  ∧ (∀ j s jb t, jobs s !! j = Some jb → t ≠ job_task jb →
       task_heap (step (StepJob j) s) !! t = task_heap s !! t)
  ∧ (∀ j s jb w, jobs s !! j = Some jb → w ∉ job_worlds jb →
       w < length (worlds s) →
       worlds (step (StepJob j) s) !! w = worlds s !! w).
Proof.
  intros Hname Hdown r. subst r.
  unfold launch_task_world, bind_raise, submit. simpl. rewrite Hdown. simpl.
  split_and!.
  - done.
  - apply dict_get_set_eq.
  - by apply dict_set_keys_present.
  - intros k Hk. by apply dict_get_set_ne.
  - intros i jb Hi. by apply lookup_app_l_Some.
  - by rewrite lookup_app_r, Nat.sub_diag.
  - intros t ts Ht.
    rewrite list_lookup_alter_ne.
    + by apply lookup_app_l_Some.
    + apply lookup_lt_Some in Ht. lia.
  - done.
  - intros i j s Hij. by apply step_job_other.
  - intros j s jb t Hj Ht. by eapply step_job_task_heap_frame.
  - intros j s jb w Hj Hw Hlt. by eapply step_job_worlds_frame.
Qed.

(** ** The task-world loop *)

Lemma run_world_check j task wname ags w rv obj st :
  worlds st !! w = Some obj →
  _run_world j task wname ags (RCheck w rv) st
  = (if episode_done obj || system_done st then RExit w rv
     else RParley w rv, st).
Proof.
  intros Hw. cbn [_run_world]. rewrite Hw.
  by destruct (episode_done obj), (system_done st).
Qed.

Lemma run_world_parley j task wname ags w rv obj st :
  worlds st !! w = Some obj →
  _run_world j task wname ags (RParley w rv) st
  = (match (parley obj).1 with
     | Ok v => RSleep w v
     | Raise e => RRaise e
     end,
     emit (Worker j) (EvParley w (parley obj).1)
       (set_worlds (<[w := (parley obj).2]> (worlds st)) st)).
Proof.
  intros Hw. cbn [_run_world]. unfold call_world. rewrite Hw.
  by destruct (parley obj) as [[v|e] obj'].
Qed.

Lemma run_world_exit j task wname ags w rv obj st :
  worlds st !! w = Some obj →
  _run_world j task wname ags (RExit w rv) st
  = (match (world_shutdown obj).1 with
     | Ok _ => RDone rv (default ∅ (world_data (world_shutdown obj).2))
     | Raise e => RRaise e
     end,
     set_worlds (<[w := (world_shutdown obj).2]> (worlds st))
       (emit (Worker j) (EvRelease w) st)).
Proof.
  intros Hw. cbn [_run_world]. unfold call_world. simpl. rewrite Hw.
  destruct (world_shutdown obj) as [[u|e] obj']; simpl; [|done].
  rewrite list_lookup_insert_eq; [done|]. by eapply lookup_lt_Some.
Qed.

(** C3.  A run of [_run_world] enters its loop with no step result.  At
    the loop condition it leaves the loop exactly when the session reports
    the episode complete or the stop flag is read true, and makes a step
    otherwise.  When it leaves, the next two program points release the
    session (one release call, recorded in the trace; the release is taken
    not to raise), read the session's data attribute (the empty mapping when
    it has none) and return the pair of the last step result and that
    payload.  When it makes a step that returns, it is back at its condition
    after the delay, holding the result of that step. *)
Theorem run_world_returns_last_result j task wname ags st :
  (∀ g obj,
     get_world_fn_attr wname = Some g → g (opt st) ags = Ok obj →
     (_run_world j task wname ags RStart st).1
     = RCheck (length (worlds st)) PyNone)
  ∧ (∀ w rv obj,
       worlds st !! w = Some obj →
       _run_world j task wname ags (RCheck w rv) st
       = (if episode_done obj || system_done st then RExit w rv
          else RParley w rv, st))
  ∧ (∀ w rv obj obj',
       worlds st !! w = Some obj →
       episode_done obj || system_done st = true →
       world_shutdown obj = (Ok (), obj') →
       run_world_steps 2 j task wname ags (RCheck w rv) st
       = (RDone rv (default ∅ (world_data obj')),
          set_worlds (<[w := obj']> (worlds st))
            (emit (Worker j) (EvRelease w) st)))
  ∧ (∀ w rv obj v obj',
       worlds st !! w = Some obj →
       episode_done obj || system_done st = false →
       parley obj = (Ok v, obj') →
       run_world_steps 3 j task wname ags (RCheck w rv) st
       = (RCheck w v,
          emit (Worker j) (EvSleep 300)
            (emit (Worker j) (EvParley w (Ok v))
               (set_worlds (<[w := obj']> (worlds st)) st)))).
Proof.
  split_and!.
  - intros g obj Hg Hobj. cbn [_run_world]. by rewrite Hg, Hobj.
  - intros w rv obj Hw. by apply run_world_check.
  - intros w rv obj obj' Hw Hstop Hrel.
    cbn [run_world_steps].
    rewrite (run_world_check _ _ _ _ _ _ _ _ Hw), Hstop.
    rewrite (run_world_exit _ _ _ _ _ _ _ _ Hw), Hrel. done.
  - intros w rv obj v obj' Hw Hstop Hpar.
    cbn [run_world_steps].
    rewrite (run_world_check _ _ _ _ _ _ _ _ Hw), Hstop.
    rewrite (run_world_parley _ _ _ _ _ _ _ _ Hw), Hpar. done.
Qed.

(** ** [shutdown] *)

Lemma shutdown_release_raises st i name task t w obj e :
  caller st = CRelease i (length (tasks st)) →
  tasks st !! i = Some (name, task) →
  task_heap st !! task = Some t →
  world t = Some w →
  worlds st !! w = Some obj →
  (world_shutdown obj).1 = Raise e →
  shutdown_step st
  = caller_raise e
      (set_worlds (<[w := (world_shutdown obj).2]> (worlds st))
         (emit Caller (EvRelease w) st)).
Proof.
  intros Hc Hi Ht Hw Hobj He. unfold shutdown_step.
  rewrite Hc, decide_True, Hi, Ht, Hw by done.
  unfold call_world. simpl. rewrite Hobj.
  destruct (world_shutdown obj) as [r obj']. simpl in *. by subst r.
Qed.

(** C2 (amended).  When the release of a session raises during the release
    pass of [shutdown], the exception leaves [shutdown]: the call is over,
    the stop flag and the executor are as they were before the call, so the
    pool is not drained, and the exception is what the caller sees. *)
Theorem shutdown_release_error_propagates st i name task t w obj e :
  caller st = CRelease i (length (tasks st)) →
  tasks st !! i = Some (name, task) →
  task_heap st !! task = Some t →
  world t = Some w →
  worlds st !! w = Some obj →
  (world_shutdown obj).1 = Raise e →
  let st' := step StepShutdown st in
  caller st' = CIdle
  ∧ system_done st' = system_done st
  ∧ executor_down st' = executor_down st
  ∧ jobs st' = jobs st
  ∧ trace st' = trace st ++ [(Caller, EvRelease w); (Caller, EvRaised e)]
  ∧ step StepShutdown st' = st'.
Proof.
  intros Hc Hi Ht Hw Hobj He st'. subst st'. simpl.
  rewrite (shutdown_release_raises _ _ _ _ _ _ _ _ Hc Hi Ht Hw Hobj He).
  split_and!; try done.
  unfold caller_raise, emit. simpl. by rewrite <- (assoc_L (++)).
Qed.

(** ** The overworld loop *)

Lemma world_function_head j task oname omap oagent astate ow wt st :
  _world_function j task oname omap oagent astate (OHead ow wt) st
  = (if system_done st then
       match wt with
       | Some v => ODone v
       | None => ORaise (UnboundLocalError "world_type")
       end
     else OParley ow, st).
Proof.
  cbn [_world_function]. destruct (system_done st); [by destruct wt|done].
Qed.

(** C4.  The overworld loop is left, at its condition, only when the stop
    flag is true.  When a supervisory step has returned before, the job
    returns the route of the last step; when the flag is already true at the
    first evaluation of the condition, [world_type] was never assigned and
    the job fails with an [UnboundLocalError] instead of returning. *)
Theorem overworld_exit_before_first_step j task oname omap oagent astate ow
    st :
  system_done st = true →
  _world_function j task oname omap oagent astate (OHead ow None) st
  = (ORaise (UnboundLocalError "world_type"), st)
  ∧ (∀ v, _world_function j task oname omap oagent astate
            (OHead ow (Some v)) st = (ODone v, st)).
Proof.
  intros Hd. split; [|intros v]; by rewrite world_function_head, Hd.
Qed.

Lemma overworld_exit_needs_flag j task oname omap oagent astate ow wt st :
  system_done st = false →
  _world_function j task oname omap oagent astate (OHead ow wt) st
  = (OParley ow, st).
Proof. intros Hd. by rewrite world_function_head, Hd. Qed.

Lemma over_steps_add n m j task oname omap oagent astate pc st :
  over_steps (n + m) j task oname omap oagent astate pc st
  = over_steps m j task oname omap oagent astate
      (over_steps n j task oname omap oagent astate pc st).1
      (over_steps n j task oname omap oagent astate pc st).2.
Proof.
  revert pc st. induction n as [|n IH]; intros pc st; simpl; [done|].
  destruct (_world_function _ _ _ _ _ _ _ _) as [pc' st']. apply IH.
Qed.

Lemma after_parleys_S n obj :
  after_parleys (S n) obj = after_parleys n (parley obj).2.
Proof. unfold after_parleys. by rewrite Nat.iter_succ_r. Qed.

Lemma over_retry_cycle j task oname omap oagent astate ow wt obj st :
  worlds st !! ow = Some obj →
  system_done st = false →
  (parley obj).1 = Ok PyNone →
  over_steps 3 j task oname omap oagent astate (OHead ow wt) st
  = (OHead ow (Some PyNone),
     emit (Worker j) (EvSleep 500)
       (emit (Worker j) (EvParley ow (Ok PyNone))
          (set_worlds (<[ow := (parley obj).2]> (worlds st)) st))).
Proof.
  intros Hw Hd Hp. cbn [over_steps].
  rewrite world_function_head, Hd. cbn [_world_function].
  unfold call_world. rewrite Hw.
  destruct (parley obj) as [r obj']. simpl in Hp. subst r. done.
Qed.

(** C6 (amended).  While the supervisory steps return [None], the overworld
    loop only re-polls: [n] such steps in a row are [n] times a step and a
    delay of half a second; the manager is left as it was (no agent is
    created, nobody is added to a pool), no task state changes, and the
    loop is back at its condition. *)
Theorem overworld_none_routes_only_repoll n j task oname omap oagent astate
    ow wt obj st :
  worlds st !! ow = Some obj →
  system_done st = false →
  all_none n obj = true →
  let r := over_steps (3 * n) j task oname omap oagent astate
             (OHead ow wt) st in
  r.1 = OHead ow (match n with 0 => wt | S _ => Some PyNone end)
  ∧ manager r.2 = manager st
  ∧ task_heap r.2 = task_heap st
  ∧ trace r.2
    = trace st
      ++ mjoin (replicate n [(Worker j, EvParley ow (Ok PyNone));
                             (Worker j, EvSleep 500)])
  ∧ worlds r.2 = <[ow := after_parleys n obj]> (worlds st).
Proof.
  revert wt obj st. induction n as [|n IH]; intros wt obj st Hw Hd Hn r.
  { subst r. simpl. split_and!; try done.
    - by rewrite app_nil_r.
    - by rewrite list_insert_id. }
  simpl in Hn.
  destruct (parley obj) as [[[|s]|e] obj1] eqn:Hp; simpl in Hn; try done.
  subst r. replace (3 * S n) with (3 + 3 * n) by lia.
  rewrite over_steps_add.
  rewrite (over_retry_cycle _ _ _ _ _ _ _ _ obj) by (by rewrite ?Hp).
  rewrite Hp. cbn [fst snd].
  set (st1 := emit _ _ (emit _ _ (set_worlds _ st))).
  assert (worlds st1 !! ow = Some obj1) as Hw1.
  { simpl. apply list_lookup_insert_eq. by eapply lookup_lt_Some. }
  destruct (IH (Some PyNone) obj1 st1 Hw1 Hd Hn) as (H1 & H2 & H3 & H4 & H5).
  split_and!.
  - rewrite H1. by destruct n.
  - by rewrite H2.
  - by rewrite H3.
  - rewrite H4. simpl. by rewrite <- !(assoc_L (++)).
  - rewrite H5, after_parleys_S, Hp. simpl.
    by rewrite list_insert_insert_eq.
Qed.

(** ** Onboarding *)

Lemma run_world_manager j task wname ags rp st :
  manager (_run_world j task wname ags rp st).2 = manager st.
Proof. destruct rp; cbn [_run_world]; crush_step; done. Qed.

Lemma world_function_route_plain j task oname omap oagent astate ow wt st :
  truthy (onboard_map_get omap wt) = false →
  _world_function j task oname omap oagent astate (ORoute ow wt) st
  = (ONotify ow wt, st).
Proof.
  intros Hf. cbn [_world_function].
  destruct (onboard_map_get omap wt); [done|]. by rewrite Hf.
Qed.

(** C5 (amended).  For a route that is not [None]: when the onboarding map
    gives the route a truthy onboarding kind, the overworld loop creates the
    onboarding agent and starts one run of [_run_world] for that kind; while
    that run is under way each program point of the overworld job is a
    program point of the run and the manager's pool stays as it is; when the
    run has returned its data is stored on the agent state and the manager
    is notified next.  When the map has no entry for the route, or lists it
    with [None] or an empty name, no run starts and the manager is notified
    next.  The notification passes the route value. *)
Theorem onboarding_runs_once_before_notify j task oname omap oagent astate
    ow wt st :
  (∀ k agent a s,
     onboard_map_get omap wt = PyStr k → truthy (PyStr k) = true →
     astate = Some a → agent_states (manager st) !! a = Some s →
     _create_agent
       ("onboard-" +:+ agent_id oagent +:+ "-" +:+ pretty (now st))
       (agent_id oagent) = Ok agent →
     let r := _world_function j task oname omap oagent astate
                (ORoute ow wt) st in
     r.1 = OOnboard ow wt k agent RStart
     ∧ agent_pool (manager r.2) = agent_pool (manager st)
     ∧ worlds r.2 = worlds st)
  ∧ (∀ k agent rp,
       (∀ rv d, rp ≠ RDone rv d) → (∀ e, rp ≠ RRaise e) →
       _world_function j task oname omap oagent astate
         (OOnboard ow wt k agent rp) st
       = (OOnboard ow wt k agent (_run_world j task k [agent] rp st).1,
          (_run_world j task k [agent] rp st).2)
       ∧ manager (_run_world j task k [agent] rp st).2 = manager st)
  ∧ (∀ k agent rv d a s,
       astate = Some a → agent_states (manager st) !! a = Some s →
       let r := _world_function j task oname omap oagent astate
                  (OOnboard ow wt k agent (RDone rv d)) st in
       r.1 = ONotify ow wt
       ∧ agent_pool (manager r.2) = agent_pool (manager st)
       ∧ agent_states (manager r.2) !! a = Some (set_onboard_data d s))
  ∧ (truthy (onboard_map_get omap wt) = false →
     _world_function j task oname omap oagent astate (ORoute ow wt) st
     = (ONotify ow wt, st))
  ∧ (∀ s, omap !! s = None →
       _world_function j task oname omap oagent astate
         (ORoute ow (PyStr s)) st = (ONotify ow (PyStr s), st))
  ∧ (let r := _world_function j task oname omap oagent astate
                (ONotify ow wt) st in
     r.1 = OSettle ow wt
     ∧ agent_pool (manager r.2) = agent_pool (manager st) ++ [(astate, wt)]
     ∧ worlds r.2 = worlds st).
Proof.
  split_and!.
  - intros k agent a s Hk Ht -> Hs Hc r. subst r.
    cbn [_world_function]. rewrite Hk, Ht.
    unfold over_next, bind_raise, call_agent_state. rewrite Hc. simpl.
    rewrite Hs. simpl. by rewrite lookup_insert_eq.
  - intros k agent rp Hnd Hnr. split; [|apply run_world_manager].
    cbn [_world_function].
    destruct rp; try done; try by destruct (_run_world _ _ _ _ _ _).
    + by destruct (Hnd ret_val world_data0).
    + by destruct (Hnr e).
  - intros k agent rv d a s -> Hs r. subst r.
    cbn [_world_function]. unfold over_next, bind_raise, call_agent_state.
    rewrite Hs. simpl. by rewrite lookup_insert_eq.
  - apply world_function_route_plain.
  - intros s Hs. apply world_function_route_plain. simpl. by rewrite Hs.
  - done.
Qed.

(** ** The session field of a registry entry *)







(** ** The stop flag and the loops *)

Lemma shutdown_step_jobs st : jobs (shutdown_step st) = jobs st.
Proof.
  unfold shutdown_step, caller_raise.
  destruct (caller st); crush_step; done.
Qed.

Lemma launch_task_world_jobs name wname ags st j jb :
  jobs st !! j = Some jb →
  jobs (launch_task_world name wname ags st).2 !! j = Some jb.
Proof.
  intros Hj. unfold launch_task_world, bind_raise, submit. simpl.
  destruct (executor_down st); simpl; [done|]. by apply lookup_app_l_Some.
Qed.

Lemma launch_overworld_jobs name oname omap oagent st j jb :
  jobs st !! j = Some jb →
  jobs (launch_overworld name oname omap oagent st).2 !! j = Some jb.
Proof.
  intros Hj. unfold launch_overworld, bind_raise, submit. simpl.
  destruct (executor_down st); simpl; [done|]. by apply lookup_app_l_Some.
Qed.

Lemma caller_call_jobs {A} (r : result A * Runner Opt W) :
  jobs (caller_call r) = jobs r.2.
Proof. by destruct r as [[a|e] st]. Qed.

(** Only its own worker moves a job. *)
Lemma step_keeps_job a j st jb :
  a ≠ StepJob j → jobs st !! j = Some jb → jobs (step a st) !! j = Some jb.
Proof.
  intros Ha Hj. destruct a as [| | | |i| |]; simpl.
  - rewrite caller_call_jobs. by apply launch_task_world_jobs.
  - rewrite caller_call_jobs. by apply launch_overworld_jobs.
  - unfold shutdown_enter. by destruct (caller st).
  - by rewrite shutdown_step_jobs.
  - rewrite step_job_other; [done|congruence].
  - done.
  - done.
Qed.

Lemma run_bound_step j task wname ags rp st :
  system_done st = true →
  run_bound (_run_world j task wname ags rp st).1 ≤ pred (run_bound rp).
Proof.
  intros Hd. destruct rp; cbn [_run_world]; rewrite ?Hd; crush_step;
    try lia; by rewrite andb_false_r in *.
Qed.

Lemma over_bound_step j task oname omap oagent astate pc st d :
  system_done st = true →
  exit_bound (OverJob task oname omap oagent astate pc) = Some d →
  ∃ d',
    exit_bound (OverJob task oname omap oagent astate
                  (_world_function j task oname omap oagent astate pc st).1)
    = Some d'
    ∧ d' ≤ pred d.
Proof.
  intros Hd Hb.
  destruct pc as [| |ow wt|ow|ow|ow wt|ow wt k agent rp|ow wt|ow wt|ow wt
                 |ow wt|ow wt|wt|e];
    simpl in Hb; simplify_eq; cbn [_world_function]; rewrite ?Hd.
  4: {
    pose proof (run_bound_step j task k [agent] rp st Hd) as Hr.
    destruct rp; try (destruct (_run_world _ _ _ _ _ _); simpl in *; by eauto).
    all: crush_step; eauto with lia. }
  all: crush_step; eauto with lia.
Qed.

Lemma exit_bound_step j st jb d :
  system_done st = true → jobs st !! j = Some jb → exit_bound jb = Some d →
  ∃ jb' d',
    jobs (step_job j st) !! j = Some jb' ∧ exit_bound jb' = Some d'
    ∧ d' ≤ pred d.
Proof.
  intros Hd Hj Hb.
  assert (j < length (jobs st)) as Hlt by by eapply lookup_lt_Some.
  destruct jb as [task name wname ags [|rp]|task oname omap oagent astate pc];
    simpl in Hb; simplify_eq.
  - rewrite (step_job_task_run _ _ _ _ _ _ _ Hj). simpl.
    rewrite list_lookup_insert_eq by done.
    eexists _, _. split_and!; [done..|]. by apply run_bound_step.
  - rewrite (step_job_over_run _ _ _ _ _ _ _ _ Hj) by by destruct pc.
    simpl. rewrite list_lookup_insert_eq by done.
    destruct (over_bound_step j task oname omap oagent astate pc st d Hd Hb)
      as (d' & Hd' & Hle).
    eauto.
Qed.

Lemma exit_bound_run acts j st jb d :
  system_done st = true → jobs st !! j = Some jb → exit_bound jb = Some d →
  ∃ jb' d',
    jobs (run acts st) !! j = Some jb' ∧ exit_bound jb' = Some d'
    ∧ d' ≤ d - steps_of j acts.
Proof.
  revert st jb d. induction acts as [|a acts IH]; intros st jb d Hd Hj Hb.
  { simpl. eexists _, _. split_and!; [done..|lia]. }
  assert (system_done (step a st) = true) as Hd'
    by by apply step_system_done_mono.
  assert ({a = StepJob j} + {a ≠ StepJob j}) as [->|Ha].
  { destruct a as [| | | |i| |]; try (right; congruence).
    destruct (decide (i = j)) as [->|]; [left|right]; congruence. }
  - destruct (exit_bound_step j st jb d Hd Hj Hb) as (jb1 & d1 & Hj1 & Hb1 & ?).
    destruct (IH _ _ _ Hd' Hj1 Hb1) as (jb2 & d2 & Hj2 & Hb2 & ?).
    exists jb2, d2. split_and!; [done..|].
    simpl. rewrite decide_True by done. lia.
  - destruct (IH _ _ _ Hd' (step_keeps_job a j st jb Ha Hj) Hb)
      as (jb2 & d2 & Hj2 & Hb2 & ?).
    exists jb2, d2. split_and!; [done..|].
    destruct a as [| | | |i| |]; simpl; try done.
    rewrite decide_False by congruence. done.
Qed.

Lemma in_running_loop_bound jb :
  in_running_loop jb = true → ∃ d, exit_bound jb = Some d ∧ d ≤ 3.
Proof.
  destruct jb as [? ? ? ? [|[]]|? ? ? ? ? []]; simpl; try done;
    try (eexists; split; [done|lia]).
  destruct rp; simpl; try done; eexists; split; try done; lia.
Qed.

Lemma exit_bound_0_left_loop jb :
  exit_bound jb = Some 0 → in_running_loop jb = false.
Proof.
  destruct jb as [? ? ? ? [|[]]|? ? ? ? ? []]; simpl; try done.
  by destruct rp.
Qed.

Lemma wait_poll_ignores_flag n j task oname omap oagent astate ow wt st a :
  get_active_agent astate st = Ok a → a ≠ oagent →
  (over_steps n j task oname omap oagent astate (OWait ow wt) st).1
  = (if Nat.even n then OWait ow wt else OWaitSleep ow wt)
  ∧ (over_steps n j task oname omap oagent astate (OWaitSleep ow wt) st).1
    = (if Nat.even n then OWaitSleep ow wt else OWait ow wt).
Proof.
  intros Ha Hne. revert st Ha.
  induction n as [|n IH]; intros st Ha; [done|].
  rewrite Nat.even_succ, <- Nat.negb_even.
  cbn [over_steps _world_function]. rewrite Ha, decide_True by done.
  split.
  - destruct (IH st Ha) as [_ ->]. by destruct (Nat.even n).
  - destruct (IH (emit (Worker j) (EvSleep 2000) st)) as [-> _]; [done|].
    by destruct (Nat.even n).
Qed.

(** C1 (amended).  Once the stop flag is true, a job that is inside the
    stepping loop of [_run_world] has left it for good after three of its
    own program points (the step in flight, its delay and one evaluation of
    the loop condition), whatever the session does and whatever the other
    threads do in between; the overworld loop is left when its condition at
    the top of the cycle is evaluated next.  The poll that waits for the
    participant to return reads the manager only: whatever the stop flag
    says, it goes on for as long as the active agent is not the supervising
    agent, and ends when it is. *)
Theorem stop_flag_ends_loops_at_their_condition :
  (∀ st j jb acts,
     system_done st = true → jobs st !! j = Some jb →
     in_running_loop jb = true → 3 ≤ steps_of j acts →
     ∃ jb', jobs (run acts st) !! j = Some jb'
            ∧ in_running_loop jb' = false ∧ exit_bound jb' = Some 0)
  ∧ (∀ j task oname omap oagent astate ow wt st,
       system_done st = true →
       _world_function j task oname omap oagent astate (OHead ow wt) st
       = (match wt with
          | Some v => ODone v
          | None => ORaise (UnboundLocalError "world_type")
          end, st))
  ∧ (∀ n j task oname omap oagent astate ow wt st a,
       get_active_agent astate st = Ok a → a ≠ oagent →
       (over_steps n j task oname omap oagent astate (OWait ow wt) st).1
       = (if Nat.even n then OWait ow wt else OWaitSleep ow wt))
  ∧ (∀ j task oname omap oagent astate ow wt st,
       get_active_agent astate st = Ok oagent →
       _world_function j task oname omap oagent astate (OWait ow wt) st
       = (OReturn ow wt, st)).
Proof.
  split_and!.
  - intros st j jb acts Hd Hj Hin Hsteps.
    destruct (in_running_loop_bound jb Hin) as (d & Hb & Hle).
    destruct (exit_bound_run acts j st jb d Hd Hj Hb)
      as (jb' & d' & Hj' & Hb' & Hle').
    assert (d' = 0) as -> by lia.
    exists jb'. split_and!; [done| |done]. by apply exit_bound_0_left_loop.
  - intros j task oname omap oagent astate ow wt st Hd.
    by rewrite world_function_head, Hd.
  - intros n j task oname omap oagent astate ow wt st a Ha Hne.
    by destruct (wait_poll_ignores_flag n j task oname omap oagent astate
                   ow wt st a Ha Hne) as [-> _].
  - intros j task oname omap oagent astate ow wt st Ha.
    cbn [_world_function]. rewrite Ha. by rewrite decide_False by auto.
Qed.

(** ** References in reachable states *)



















Lemma sessions_of_NoDup heap entries :
  NoDup entries.*2 →
  (∀ t1 t2 w,
     heap !! t1 ≫= world = Some w → heap !! t2 ≫= world = Some w →
     t1 = t2) →
  NoDup (sessions_of heap entries).
Proof.
  intros Hnd Hinj. unfold sessions_of.
  induction entries as [|e es IH]; simpl; [apply NoDup_nil_2|].
  rewrite fmap_cons in Hnd. apply NoDup_cons in Hnd as [He Hnd].
  destruct (heap !! e.2 ≫= world) as [w|] eqn:Hw; [|by apply IH].
  apply NoDup_cons. split; [|by apply IH].
  intros (e' & He' & Hw')%list_elem_of_omap.
  apply He. rewrite (Hinj _ _ _ Hw Hw').
  apply list_elem_of_fmap. by exists e'.
Qed.

(** No session is visited twice by the release pass of [shutdown]. *)
Lemma live_sessions_NoDup st : wf st → NoDup (live_sessions st).
Proof.
  intros Hwf. apply sessions_of_NoDup.
  - apply (wf_registry_nodup st Hwf).
  - apply (wf_session_inj st Hwf).
Qed.

Lemma live_sessions_valid st w :
  wf st → w ∈ live_sessions st → is_Some (worlds st !! w).
Proof.
  intros Hwf (e & He & Hw)%list_elem_of_omap.
  apply lookup_lt_is_Some_2. by apply (wf_session st Hwf e.2).
Qed.


(** ** Shutdown while a task world is running *)

Lemma run_app acts1 acts2 st :
  run (acts1 ++ acts2) st = run acts2 (run acts1 st).
Proof. apply foldl_app. Qed.

Lemma list_alter_lookup_insert {A} (f : A → A) (l : list A) i x :
  l !! i = Some x → alter f i l = <[i := f x]> l.
Proof.
  intros Hi. apply list_eq. intros k.
  destruct (decide (i = k)) as [->|Hne].
  - rewrite list_lookup_alter_eq, Hi, list_lookup_insert_eq; [done|].
    by eapply lookup_lt_Some.
  - by rewrite list_lookup_alter_ne, list_lookup_insert_ne.
Qed.

Lemma release_never_fails_next obj :
  release_never_fails obj → release_never_fails (world_shutdown obj).2.
Proof.
  intros Hobj k. specialize (Hobj (S k)).
  by rewrite Nat.iter_succ_r in Hobj.
Qed.

Lemma release_worlds_lookup ws heap w obj :
  heap !! w = Some obj → release_never_fails obj →
  ∃ obj', release_worlds ws heap !! w = Some obj'
          ∧ release_never_fails obj'.
Proof.
  revert heap obj. induction ws as [|w1 ws IH]; intros heap obj Hw Hobj.
  { simpl. eauto. }
  simpl. destruct (decide (w1 = w)) as [->|Hne].
  - eapply IH.
    + by rewrite list_lookup_alter_eq, Hw.
    + by apply release_never_fails_next.
  - eapply IH; [|done]. by rewrite list_lookup_alter_ne.
Qed.

(** The release pass, from position [i] of the registry to its end: one
    program point per entry and one that finds the end of the dictionary. *)
Lemma release_pass m i st :
  caller st = CRelease i (length (tasks st)) →
  length (tasks st) - i = m →
  (∀ e, e ∈ tasks st → is_Some (task_heap st !! e.2)) →
  (∀ w, w ∈ sessions_of (task_heap st) (drop i (tasks st)) →
     ∃ obj, worlds st !! w = Some obj ∧ release_never_fails obj) →
  let st' := run (replicate (S m) StepShutdown) st in
  caller st' = CSetDone
  ∧ jobs st' = jobs st
  ∧ system_done st' = system_done st
  ∧ debug st' = debug st
  ∧ trace st'
    = trace st
      ++ ((λ w, (Caller, EvRelease w))
          <$> sessions_of (task_heap st) (drop i (tasks st)))
  ∧ worlds st'
    = release_worlds (sessions_of (task_heap st) (drop i (tasks st)))
        (worlds st).
Proof.
  revert i st. induction m as [|m IH]; intros i st Hc Hm Hvalid Hrel st'.
  - subst st'. cbn [replicate run foldl step]. unfold shutdown_step.
    rewrite Hc, decide_True by done.
    rewrite (lookup_ge_None_2 (tasks st) i) by lia.
    rewrite drop_ge by lia. simpl. by rewrite app_nil_r.
  - assert (i < length (tasks st)) as Hi by lia.
    destruct (lookup_lt_is_Some_2 _ _ Hi) as [[k t] Hkt].
    destruct (Hvalid (k, t)) as [ts Hts].
    { by eapply list_elem_of_lookup_2. }
    simpl in Hts.
    pose proof (drop_S _ _ _ Hkt) as Hdrop.
    subst st'.
    assert (run (replicate (S (S m)) StepShutdown) st
            = run (replicate (S m) StepShutdown) (shutdown_step st)) as ->
      by done.
    rewrite Hdrop in Hrel |- *. unfold sessions_of in Hrel |- *.
    cbn [omap list_omap snd] in Hrel |- *.
    rewrite Hts in Hrel |- *. cbn [mbind option_bind] in Hrel |- *.
    destruct (world ts) as [w|] eqn:Hw.
    + destruct (Hrel w) as (obj & Hobj & Hnf); [by left|].
      pose proof (Hnf 0) as H0. simpl in H0.
      destruct (world_shutdown obj) as [r obj'] eqn:Hsh. simpl in H0.
      subst r.
      assert (shutdown_step st
              = set_caller (CRelease (S i) (length (tasks st)))
                  (set_worlds (<[w := obj']> (worlds st))
                     (emit Caller (EvRelease w) st))) as ->.
      { unfold shutdown_step.
        rewrite Hc, decide_True, Hkt, Hts, Hw by done.
        unfold call_world. simpl. by rewrite Hobj, Hsh. }
      set (st1 := set_caller _ _).
      destruct (IH (S i) st1) as (H1 & H2 & H3 & H4 & H5 & H6).
      * done.
      * simpl. lia.
      * done.
      * intros w' Hw'. simpl.
        destruct (decide (w = w')) as [<-|Hne].
        -- exists obj'. split.
           ++ apply list_lookup_insert_eq. by eapply lookup_lt_Some.
           ++ replace obj' with (world_shutdown obj).2 by by rewrite Hsh.
              by apply release_never_fails_next.
        -- rewrite list_lookup_insert_ne by done. apply Hrel. by right.
      * split_and!; try done.
        -- rewrite H5. simpl. by rewrite <- (assoc_L (++)).
        -- rewrite H6. simpl.
           rewrite (list_alter_lookup_insert _ _ _ _ Hobj). by rewrite Hsh.
    + assert (shutdown_step st
              = set_caller (CRelease (S i) (length (tasks st))) st) as ->.
      { unfold shutdown_step.
        by rewrite Hc, decide_True, Hkt, Hts, Hw by done. }
      set (st1 := set_caller _ _).
      destruct (IH (S i) st1) as (H1 & H2 & H3 & H4 & H5 & H6);
        [done|simpl; lia|done|done|].
      by split_and!.
Qed.


Lemma filter_eq_NoDup (l : list nat) w :
  NoDup l → w ∈ l → filter (λ w', w' = w) l = [w].
Proof.
  induction l as [|x l IH]; intros Hnd Hw.
  { by apply elem_of_nil in Hw. }
  apply NoDup_cons in Hnd as [Hx Hnd].
  destruct (decide (x = w)) as [->|Hne].
  - rewrite filter_cons_True by done. f_equal.
    clear IH Hw Hnd. induction l as [|y l IH]; [done|].
    apply not_elem_of_cons in Hx as [Hy Hx].
    rewrite filter_cons_False by auto. by apply IH.
  - rewrite filter_cons_False by done. apply IH; [done|].
    apply elem_of_cons in Hw as [->|Hw]; done.
Qed.

Lemma releases_of_pass w (l : list nat) :
  releases_of w ((λ w', (Caller, EvRelease w')) <$> l)
  = (λ w', (Caller, EvRelease w')) <$> filter (λ w', w' = w) l.
Proof.
  unfold releases_of. induction l as [|x l IH]; [done|].
  rewrite fmap_cons. destruct (decide (x = w)) as [->|Hne].
  - rewrite !filter_cons_True, fmap_cons, IH; [done..|].
    unfold is_release. simpl. by rewrite bool_decide_eq_true_2.
  - rewrite !filter_cons_False, IH; [done..|].
    unfold is_release. simpl. by rewrite bool_decide_eq_false_2.
Qed.

(** The release pass of [shutdown], line 46 and the exit of a loop that
    was at its condition: the session of the loop is released twice. *)
(** ** The releases of a session around a call of [shutdown] *)

Implicit Types s : Runner Opt W.



















Section ReleasePass.
Variables (name wname : string) (ags : list Agent) (task w p j : nat).
















End ReleasePass.


End Properties.

(** * The properties on the concrete world module *)

Import Demo.

(** A scripted session that was not built to fail can be released any
    number of times. *)
Lemma scripted_release_never_fails (s : Scripted) :
  release_fails s = false → release_never_fails s.
Proof.
  intros Hs k. revert s Hs. induction k as [|k IH]; intros s Hs.
  - simpl. by rewrite Hs.
  - rewrite Nat.iter_succ_r. apply IH. simpl. by rewrite Hs.
Qed.

(** C1, witness: the task-world job of [task_stopping] is in its stepping
    loop with the stop flag set and has left it after three of its program
    points; the overworld job of [stopped_early] leaves at its condition;
    the poll of [waiting_stopped] is where it was after four program
    points, and ends once the manager has handed [ann] back. *)
Lemma stop_flag_ends_loops_witness :
  (∃ jb', jobs (run [StepJob 0; Tick 5; StepJob 0; StepJob 0] task_stopping)
            !! 0 = Some jb'
          ∧ in_running_loop jb' = false ∧ exit_bound jb' = Some 0)
  ∧ _world_function 0 0 "Overworld" onboard_map ann (Some "ann")
      (OHead 0 (Some PyNone)) stopped_early
    = (ODone PyNone, stopped_early)
  ∧ (over_steps 4 0 0 "Overworld" onboard_map ann (Some "ann")
       (OWait 0 (PyStr "chat")) waiting_stopped).1
    = OWait 0 (PyStr "chat")
  ∧ _world_function 0 0 "Overworld" onboard_map ann (Some "ann")
      (OWait 0 (PyStr "chat"))
      (step (ManagerSetActive "ann" ann) waiting_stopped)
    = (OReturn 0 (PyStr "chat"),
       step (ManagerSetActive "ann" ann) waiting_stopped).
Proof.
  destruct (@stop_flag_ends_loops_at_their_condition unit Scripted _ _)
    as (H1 & H2 & H3 & H4).
  split_and!.
  - apply (H1 task_stopping 0
             (TaskJob 0 "t" "TaskWorld" [ann] (TRun (RParley 0 PyNone))));
      [vm_compute; reflexivity..|vm_compute; lia].
  - apply H2. vm_compute; reflexivity.
  - apply (H3 4 0 0 "Overworld" onboard_map ann (Some "ann") 0 (PyStr "chat")
             waiting_stopped (mkAgent "onboard-ann-0")).
    + vm_compute; reflexivity.
    + discriminate.
  - apply H4. vm_compute; reflexivity.
Defined.

(** C1, counterexample: with the stop flag set, the overworld job of
    [waiting_stopped] is still polling for the participant's return after a
    hundred of its program points. *)
Lemma wait_poll_outlives_stop_flag :
  system_done waiting_stopped = true
  ∧ job_over_pc <$> jobs waiting_stopped !! 0
    = Some (Some (OWaitSleep 0 (PyStr "chat")))
  ∧ job_over_pc <$> jobs (run (replicate 100 (StepJob 0)) waiting_stopped) !! 0
    = Some (Some (OWaitSleep 0 (PyStr "chat"))).
Proof. vm_compute. done. Qed.

(** C2, witness: in [stuck_shutdown] the release pass is about to visit
    the one registry entry, whose session raises when released. *)
Lemma shutdown_release_error_witness :
  caller (step StepShutdown stuck_shutdown) = CIdle
  ∧ system_done (step StepShutdown stuck_shutdown) = false
  ∧ executor_down (step StepShutdown stuck_shutdown) = false
  ∧ trace (step StepShutdown stuck_shutdown)
    = trace stuck_shutdown
      ++ [(Caller, EvRelease 0);
          (Caller, EvRaised (WorldError "release failed"))].
Proof.
  destruct (shutdown_release_error_propagates stuck_shutdown 0 "s" 0
              (mkTaskState "s" "StuckWorld" [bob] false PyNone (Some 0)
                 (Some 0))
              0
              (mkScripted [Ok (PyStr "a"); Ok (PyStr "b"); Ok (PyStr "c")]
                 0 true None 0)
              (WorldError "release failed"))
    as (H1 & H2 & H3 & H4 & H5 & H6); [vm_compute; reflexivity..|].
  split_and!; [exact H1|by rewrite H2|by rewrite H3|exact H5].
Defined.

(** C2, counterexample: the release error is not swallowed.  However often
    the caller is scheduled after it, the stop flag stays false and the
    executor is not shut down, while the job goes on stepping. *)
Lemma shutdown_release_error_not_swallowed :
  caller stuck_shutdown = CRelease 0 1
  ∧ system_done (run (replicate 10 StepShutdown) stuck_shutdown) = false
  ∧ executor_down (run (replicate 10 StepShutdown) stuck_shutdown) = false
  ∧ caller (run (replicate 10 StepShutdown) stuck_shutdown) = CIdle
  ∧ last (trace (run (replicate 10 StepShutdown) stuck_shutdown))
    = Some (Caller, EvRaised (WorldError "release failed"))
  ∧ job_task_pc
      <$> jobs (run (replicate 10 StepShutdown ++ replicate 3 (StepJob 0))
                  stuck_shutdown) !! 0
    = Some (Some (RCheck 0 (PyStr "a"))).
Proof. vm_compute. done. Qed.

(** C3, witness: the run of [TaskWorld] starts at the loop condition
    without a result, steps while the script lasts, and returns the last
    result with the session's data once the script is over. *)
Lemma run_world_returns_last_result_witness :
  (_run_world 0 0 "TaskWorld" [ann] RStart
     (run [LaunchTaskWorld "t" "TaskWorld" [ann]; StepJob 0] runner0)).1
  = RCheck 0 PyNone
  ∧ (run_world_steps 3 0 0 "TaskWorld" [ann] (RCheck 0 PyNone)
       task_running).1
    = RCheck 0 (PyStr "hello")
  ∧ (run_world_steps 2 0 0 "TaskWorld" [ann] (RCheck 0 (PyStr "bye"))
       task_complete).1
    = RDone (PyStr "bye") {["turns" := PyStr "2"]}.
Proof.
  split_and!.
  - erewrite (proj1 (run_world_returns_last_result 0 0 "TaskWorld" [ann]
                       _));
      [vm_compute; reflexivity|vm_compute; reflexivity..].
  - erewrite (proj2 (proj2 (proj2
                (run_world_returns_last_result 0 0 "TaskWorld" [ann]
                   task_running))));
      [reflexivity|vm_compute; reflexivity..].
  - erewrite (proj1 (proj2 (proj2
                (run_world_returns_last_result 0 0 "TaskWorld" [ann]
                   task_complete))));
      cycle 1; [vm_compute; reflexivity..|].
    vm_compute; reflexivity.
Defined.

(** C4, witness: in [stopped_early] the stop flag is set and the overworld
    job evaluates its loop condition for the first time. *)
Lemma overworld_exit_before_first_step_witness :
  system_done stopped_early = true
  ∧ jobs stopped_early !! 0
    = Some (OverJob 0 "Overworld" onboard_map ann (Some "ann")
              (OHead 0 None))
  ∧ _world_function 0 0 "Overworld" onboard_map ann (Some "ann")
      (OHead 0 None) stopped_early
    = (ORaise (UnboundLocalError "world_type"), stopped_early).
Proof.
  split_and!; [vm_compute; reflexivity..|].
  apply overworld_exit_before_first_step. vm_compute; reflexivity.
Defined.

(** C5, witness: [chat] is routed to [OnboardWorld], [quiz] is listed
    without an onboarding kind and [news] is not listed. *)
Lemma onboarding_runs_once_witness :
  (_world_function 0 0 "Overworld" onboard_map ann (Some "ann")
     (ORoute 0 (PyStr "chat")) routed_chat).1
  = OOnboard 0 (PyStr "chat") "OnboardWorld" (mkAgent "onboard-ann-0") RStart
  ∧ (_world_function 0 0 "Overworld" onboard_map ann (Some "ann")
       (OOnboard 0 (PyStr "chat") "OnboardWorld" (mkAgent "onboard-ann-0")
          (RDone (PyStr "welcome") {["name" := PyStr "ann"]}))
       onboarded).1
    = ONotify 0 (PyStr "chat")
  ∧ _world_function 0 0 "Overworld" onboard_map ann (Some "ann")
      (ORoute 0 (PyStr "quiz")) routed_quiz
    = (ONotify 0 (PyStr "quiz"), routed_quiz)
  ∧ _world_function 0 0 "Overworld" onboard_map ann (Some "ann")
      (ORoute 0 (PyStr "news")) routed_quiz
    = (ONotify 0 (PyStr "news"), routed_quiz).
Proof.
  split_and!.
  - eapply (proj1 (onboarding_runs_once_before_notify 0 0 "Overworld"
                     onboard_map ann (Some "ann") 0 (PyStr "chat")
                     routed_chat));
      vm_compute; reflexivity.
  - eapply (proj1 (proj2 (proj2
              (onboarding_runs_once_before_notify 0 0 "Overworld"
                 onboard_map ann (Some "ann") 0 (PyStr "chat") onboarded))));
      vm_compute; reflexivity.
  - apply (proj1 (proj2 (proj2 (proj2
             (onboarding_runs_once_before_notify 0 0 "Overworld"
                onboard_map ann (Some "ann") 0 (PyStr "quiz")
                routed_quiz))))).
    vm_compute; reflexivity.
  - apply (proj1 (proj2 (proj2 (proj2 (proj2
             (onboarding_runs_once_before_notify 0 0 "Overworld"
                onboard_map ann (Some "ann") 0 (PyStr "quiz")
                routed_quiz)))))).
    vm_compute; reflexivity.
Defined.

(** C5, counterexample: [quiz] is a key of the onboarding map, yet the
    overworld job goes from the route straight to the notification: no
    session is constructed and no onboarding run takes place. *)
Lemma listed_route_without_onboarding :
  onboard_map !! "quiz" = Some PyNone
  ∧ job_over_pc <$> jobs routed_quiz !! 0
    = Some (Some (ORoute 0 (PyStr "quiz")))
  ∧ job_over_pc <$> jobs (run [StepJob 0] routed_quiz) !! 0
    = Some (Some (ONotify 0 (PyStr "quiz")))
  ∧ trace (run [StepJob 0; StepJob 0] routed_quiz)
    = trace routed_quiz
      ++ [(Worker 0, EvAddToPool (Some "ann") (PyStr "quiz"));
          (Worker 0, EvLog "onboarding/overworld complete")]
  ∧ length (worlds (run [StepJob 0; StepJob 0] routed_quiz)) = 1.
Proof. vm_compute. done. Qed.

(** C6, witness: five steps of [QuietOverworld] in a row return [None]. *)
Lemma overworld_none_routes_witness :
  manager (over_steps 15 0 0 "QuietOverworld" onboard_map ann (Some "ann")
             (OHead 0 (Some PyNone)) quiet_supervising).2
  = manager quiet_supervising
  ∧ trace (over_steps 15 0 0 "QuietOverworld" onboard_map ann (Some "ann")
             (OHead 0 (Some PyNone)) quiet_supervising).2
    = trace quiet_supervising
      ++ mjoin (replicate 5 [(Worker 0, EvParley 0 (Ok PyNone));
                             (Worker 0, EvSleep 500)]).
Proof.
  destruct (overworld_none_routes_only_repoll 5 0 0 "QuietOverworld"
              onboard_map ann (Some "ann") 0 (Some PyNone)
              (mkScripted [] 0 false None 0) quiet_supervising)
    as (H1 & H2 & H3 & H4 & H5); [vm_compute; reflexivity..|].
  split; [exact H2|exact H4].
Defined.

(** C6, counterexample: the first route of [BlankOverworld] is the empty
    string.  The overworld job does not re-poll: it adds the participant to
    the pool of the empty route. *)
Lemma empty_route_is_handed_over :
  job_over_pc <$> jobs blank_supervising !! 0 = Some (Some (OHead 0 None))
  ∧ agent_pool (manager blank_supervising) = []
  ∧ trace (run (replicate 4 (StepJob 0)) blank_supervising)
    = trace blank_supervising
      ++ [(Worker 0, EvParley 0 (Ok (PyStr "")));
          (Worker 0, EvAddToPool (Some "ann") (PyStr ""));
          (Worker 0, EvLog "onboarding/overworld complete")]
  ∧ agent_pool (manager (run (replicate 4 (StepJob 0)) blank_supervising))
    = [(Some "ann", PyStr "")].
Proof. vm_compute. done. Qed.

(** C7, witness: a second task is launched under the name [t] while the
    first is running. *)
Lemma relaunch_keeps_first_job_witness :
  (launch_task_world "t" "PlainWorld" [bob] task_running).1 = Ok 1
  ∧ dict_get "t"
      (tasks (launch_task_world "t" "PlainWorld" [bob] task_running).2)
    = Some 1
  ∧ (tasks (launch_task_world "t" "PlainWorld" [bob] task_running).2).*1
    = ["t"]
  ∧ jobs (launch_task_world "t" "PlainWorld" [bob] task_running).2 !! 0
    = Some (TaskJob 0 "t" "TaskWorld" [ann] (TRun (RCheck 0 PyNone)))
  ∧ future
      <$> task_heap (launch_task_world "t" "PlainWorld" [bob] task_running).2
          !! 0
    = Some (Some 0).
Proof.
  destruct (relaunch_keeps_first_job "t" "PlainWorld" [bob] task_running 0)
    as (H1 & H2 & H3 & H4 & H5 & H6 & H7 & H8 & H9);
    [vm_compute; reflexivity..|].
  split_and!.
  - exact H1.
  - exact H2.
  - rewrite H3. vm_compute; reflexivity.
  - apply H5. vm_compute; reflexivity.
  - erewrite H7; [|vm_compute; reflexivity]. reflexivity.
Defined.




